(** * Base-image provisioning pipeline of ignite: a shallow embedding

    The development embeds [pkg/source/tar.go] ([TarExtract]) and the
    image-filesystem code of package [dmlegacy] ([getMinimumBaseSizeBytes],
    [CreateImageFilesystem], [addFiles], [setupResolvConf],
    [resizeToMinimum], [getMinSize], [parseResize2fsOutputForMinSize]).

    Conventions.
    - A Go [string] is a byte sequence: it is a Rocq [string], read as the
      list of its byte values ([bytes_of]).
    - [int64] values are integers of [Z] with the wrap-around of the
      machine operation written out ([wrap64]).
    - A Go function returning [error] returns [option error] ([None] is
      [nil]); a run-time panic is a separate outcome.
    - External capabilities (processes, system calls) answer through an
      environment record; every call is logged in a trace. *)

From Stdlib Require Import ZArith Lia Ascii String DecimalString.
From stdpp Require Import gmap strings list fin_maps sorting.

Local Open Scope string_scope.
Local Open Scope list_scope.
Local Open Scope Z_scope.

(** ** Go strings as bytes *)

Definition byte_of (c : ascii) : Z := Z.of_N (N_of_ascii c).

Fixpoint bytes_of (s : string) : list Z :=
  match s with
  | EmptyString => []
  | String c s' => byte_of c :: bytes_of s'
  end.

(** [s[lo:hi]] on a byte sequence. *)
Definition slice (s : list Z) (lo hi : Z) : list Z :=
  take (Z.to_nat (hi - lo)) (drop (Z.to_nat lo) s).

(** ** 64-bit integers *)

Definition maxUint64 : Z := 2 ^ 64 - 1.
Definition maxInt64 : Z := 2 ^ 63 - 1.
Definition minInt64 : Z := - 2 ^ 63.

(** Conversion of an integer to [uint64] and to [int64]. *)
Definition wrapU64 (z : Z) : Z := z mod 2 ^ 64.
Definition wrap64 (z : Z) : Z := (z + 2 ^ 63) mod 2 ^ 64 - 2 ^ 63.

(** ** unicode/utf8: [DecodeRuneInString], [DecodeLastRuneInString] *)

Module utf8.

Definition RuneError : Z := 0xFFFD.
Definition RuneSelf : Z := 0x80.
Definition UTFMax : Z := 4.

(** The table [first]: information about the first byte of an encoding.
    [0xF0] is ASCII, [0xF1] is invalid, otherwise the low three bits are
    the size and the high four bits index [acceptRanges]. *)
Definition first (b : Z) : Z :=
  if b <? 0x80 then 0xF0
  else if b <? 0xC2 then 0xF1
  else if b <? 0xE0 then 0x02
  else if b =? 0xE0 then 0x13
  else if b <? 0xED then 0x03
  else if b =? 0xED then 0x23
  else if b <? 0xF0 then 0x03
  else if b =? 0xF0 then 0x34
  else if b <? 0xF4 then 0x04
  else if b =? 0xF4 then 0x44
  else 0xF1.

Definition acceptRanges (i : Z) : Z * Z :=
  if i =? 1 then (0xA0, 0xBF)
  else if i =? 2 then (0x80, 0x9F)
  else if i =? 3 then (0x90, 0xBF)
  else if i =? 4 then (0x80, 0x8F)
  else (0x80, 0xBF).

Definition locb : Z := 0x80.
Definition hicb : Z := 0xBF.

(** [DecodeRuneInString s]: the first rune of [s] and its width. *)
Definition DecodeRune (s : list Z) : Z * nat :=
  match s with
  | [] => (RuneError, 0%nat)
  | s0 :: t =>
    let x := first s0 in
    if 0xF0 <=? x then
      ((if Z.testbit x 0 then RuneError else s0), 1%nat)
    else
      let sz := Z.land x 7 in
      let '(lo, hi) := acceptRanges (Z.shiftr x 4) in
      if Z.of_nat (length s) <? sz then (RuneError, 1%nat)
      else match t with
      | [] => (RuneError, 1%nat)
      | s1 :: t1 =>
        if (s1 <? lo) || (hi <? s1) then (RuneError, 1%nat)
        else if sz <=? 2 then
          (Z.lor (Z.shiftl (Z.land s0 0x1F) 6) (Z.land s1 0x3F), 2%nat)
        else match t1 with
        | [] => (RuneError, 1%nat)
        | s2 :: t2 =>
          if (s2 <? locb) || (hicb <? s2) then (RuneError, 1%nat)
          else if sz <=? 3 then
            (Z.lor (Z.lor (Z.shiftl (Z.land s0 0x0F) 12)
                          (Z.shiftl (Z.land s1 0x3F) 6))
                   (Z.land s2 0x3F), 3%nat)
          else match t2 with
          | [] => (RuneError, 1%nat)
          | s3 :: _ =>
            if (s3 <? locb) || (hicb <? s3) then (RuneError, 1%nat)
            else
              (Z.lor (Z.lor (Z.lor (Z.shiftl (Z.land s0 0x07) 18)
                                   (Z.shiftl (Z.land s1 0x3F) 12))
                            (Z.shiftl (Z.land s2 0x3F) 6))
                     (Z.land s3 0x3F), 4%nat)
          end
        end
      end
  end.

(** [RuneStart b]: [b] is not a continuation byte. *)
Definition RuneStart (b : Z) : bool := negb (Z.land b 0xC0 =? 0x80).

(** The backward scan of [DecodeLastRuneInString]: from [start], at most
    down to [lim], stopping at a byte that can start a rune. *)
Fixpoint scan_back (fuel : nat) (s : list Z) (start lim : Z) : Z :=
  match fuel with
  | O => start
  | S k =>
    if start <? lim then start
    else if RuneStart (default 0 (s !! Z.to_nat start)) then start
    else scan_back k s (start - 1) lim
  end.

Definition DecodeLastRune (s : list Z) : Z * nat :=
  let e := Z.of_nat (length s) in
  if e =? 0 then (RuneError, 0%nat)
  else
    let r := default 0 (s !! Z.to_nat (e - 1)) in
    if r <? RuneSelf then (r, 1%nat)
    else
      let lim := Z.max 0 (e - UTFMax) in
      let start := Z.max 0 (scan_back 4 s (e - 2) lim) in
      let '(r', size) := DecodeRune (slice s start e) in
      if start + Z.of_nat size =? e then (r', size) else (RuneError, 1%nat).

(** The runes of a string with their widths, as [for _, r := range s]
    visits them; [skip] counts the bytes of the current rune still to pass. *)
Fixpoint runes_skip (skip : nat) (s : list Z) : list (Z * nat) :=
  match s with
  | [] => []
  | _ :: t =>
    match skip with
    | S k => runes_skip k t
    | O => let '(r, w) := DecodeRune s in (r, w) :: runes_skip (Nat.pred w) t
    end
  end.

Definition runes (s : list Z) : list (Z * nat) := runes_skip 0 s.

End utf8.

(** ** unicode: [IsSpace], [IsPunct] *)

Module unicode.

Definition MaxLatin1 : Z := 0xFF.

Definition in_ranges (tab : list (Z * Z)) (r : Z) : bool :=
  existsb (fun '(lo, hi) => (lo <=? r) && (r <=? hi)) tab.

(** The entries of the Latin-1 [properties] table that carry [pP]. *)
Definition latin1_punct : list (Z * Z) :=
  [(0x21, 0x23); (0x25, 0x2A); (0x2C, 0x2F); (0x3A, 0x3B); (0x3F, 0x40);
   (0x5B, 0x5D); (0x5F, 0x5F); (0x7B, 0x7B); (0x7D, 0x7D); (0xA1, 0xA1);
   (0xA7, 0xA7); (0xAB, 0xAB); (0xB6, 0xB7); (0xBB, 0xBB); (0xBF, 0xBF)].

(** The range table [Punct] (general category P, Unicode 14) above
    Latin-1. *)
Definition Punct : list (Z * Z) :=
  [(0x37E, 0x37E); (0x387, 0x387); (0x55A, 0x55F); (0x589, 0x58A);
   (0x5BE, 0x5BE); (0x5C0, 0x5C0); (0x5C3, 0x5C3); (0x5C6, 0x5C6);
   (0x5F3, 0x5F4); (0x609, 0x60A); (0x60C, 0x60D); (0x61B, 0x61B);
   (0x61D, 0x61F); (0x66A, 0x66D); (0x6D4, 0x6D4); (0x700, 0x70D);
   (0x7F7, 0x7F9); (0x830, 0x83E); (0x85E, 0x85E); (0x964, 0x965);
   (0x970, 0x970); (0x9FD, 0x9FD); (0xA76, 0xA76); (0xAF0, 0xAF0);
   (0xC77, 0xC77); (0xC84, 0xC84); (0xDF4, 0xDF4); (0xE4F, 0xE4F);
   (0xE5A, 0xE5B); (0xF04, 0xF12); (0xF14, 0xF14); (0xF3A, 0xF3D);
   (0xF85, 0xF85); (0xFD0, 0xFD4); (0xFD9, 0xFDA); (0x104A, 0x104F);
   (0x10FB, 0x10FB); (0x1360, 0x1368); (0x1400, 0x1400); (0x166E, 0x166E);
   (0x169B, 0x169C); (0x16EB, 0x16ED); (0x1735, 0x1736); (0x17D4, 0x17D6);
   (0x17D8, 0x17DA); (0x1800, 0x180A); (0x1944, 0x1945); (0x1A1E, 0x1A1F);
   (0x1AA0, 0x1AA6); (0x1AA8, 0x1AAD); (0x1B5A, 0x1B60); (0x1B7D, 0x1B7E);
   (0x1BFC, 0x1BFF); (0x1C3B, 0x1C3F); (0x1C7E, 0x1C7F); (0x1CC0, 0x1CC7);
   (0x1CD3, 0x1CD3); (0x2010, 0x2027); (0x2030, 0x2043); (0x2045, 0x2051);
   (0x2053, 0x205E); (0x207D, 0x207E); (0x208D, 0x208E); (0x2308, 0x230B);
   (0x2329, 0x232A); (0x2768, 0x2775); (0x27C5, 0x27C6); (0x27E6, 0x27EF);
   (0x2983, 0x2998); (0x29D8, 0x29DB); (0x29FC, 0x29FD); (0x2CF9, 0x2CFC);
   (0x2CFE, 0x2CFF); (0x2D70, 0x2D70); (0x2E00, 0x2E2E); (0x2E30, 0x2E4F);
   (0x2E52, 0x2E5D); (0x3001, 0x3003); (0x3008, 0x3011); (0x3014, 0x301F);
   (0x3030, 0x3030); (0x303D, 0x303D); (0x30A0, 0x30A0); (0x30FB, 0x30FB);
   (0xA4FE, 0xA4FF); (0xA60D, 0xA60F); (0xA673, 0xA673); (0xA67E, 0xA67E);
   (0xA6F2, 0xA6F7); (0xA874, 0xA877); (0xA8CE, 0xA8CF); (0xA8F8, 0xA8FA);
   (0xA8FC, 0xA8FC); (0xA92E, 0xA92F); (0xA95F, 0xA95F); (0xA9C1, 0xA9CD);
   (0xA9DE, 0xA9DF); (0xAA5C, 0xAA5F); (0xAADE, 0xAADF); (0xAAF0, 0xAAF1);
   (0xABEB, 0xABEB); (0xFD3E, 0xFD3F); (0xFE10, 0xFE19); (0xFE30, 0xFE52);
   (0xFE54, 0xFE61); (0xFE63, 0xFE63); (0xFE68, 0xFE68); (0xFE6A, 0xFE6B);
   (0xFF01, 0xFF03); (0xFF05, 0xFF0A); (0xFF0C, 0xFF0F); (0xFF1A, 0xFF1B);
   (0xFF1F, 0xFF20); (0xFF3B, 0xFF3D); (0xFF3F, 0xFF3F); (0xFF5B, 0xFF5B);
   (0xFF5D, 0xFF5D); (0xFF5F, 0xFF65); (0x10100, 0x10102);
   (0x1039F, 0x1039F); (0x103D0, 0x103D0); (0x1056F, 0x1056F);
   (0x10857, 0x10857); (0x1091F, 0x1091F); (0x1093F, 0x1093F);
   (0x10A50, 0x10A58); (0x10A7F, 0x10A7F); (0x10AF0, 0x10AF6);
   (0x10B39, 0x10B3F); (0x10B99, 0x10B9C); (0x10EAD, 0x10EAD);
   (0x10F55, 0x10F59); (0x10F86, 0x10F89); (0x11047, 0x1104D);
   (0x110BB, 0x110BC); (0x110BE, 0x110C1); (0x11140, 0x11143);
   (0x11174, 0x11175); (0x111C5, 0x111C8); (0x111CD, 0x111CD);
   (0x111DB, 0x111DB); (0x111DD, 0x111DF); (0x11238, 0x1123D);
   (0x112A9, 0x112A9); (0x1144B, 0x1144F); (0x1145A, 0x1145B);
   (0x1145D, 0x1145D); (0x114C6, 0x114C6); (0x115C1, 0x115D7);
   (0x11641, 0x11643); (0x11660, 0x1166C); (0x116B9, 0x116B9);
   (0x1173C, 0x1173E); (0x1183B, 0x1183B); (0x11944, 0x11946);
   (0x119E2, 0x119E2); (0x11A3F, 0x11A46); (0x11A9A, 0x11A9C);
   (0x11A9E, 0x11AA2); (0x11C41, 0x11C45); (0x11C70, 0x11C71);
   (0x11EF7, 0x11EF8); (0x11FFF, 0x11FFF); (0x12470, 0x12474);
   (0x12FF1, 0x12FF2); (0x16A6E, 0x16A6F); (0x16AF5, 0x16AF5);
   (0x16B37, 0x16B3B); (0x16B44, 0x16B44); (0x16E97, 0x16E9A);
   (0x16FE2, 0x16FE2); (0x1BC9F, 0x1BC9F); (0x1DA87, 0x1DA8B);
   (0x1E95E, 0x1E95F)].

(** The range table [White_Space] above Latin-1. *)
Definition White_Space : list (Z * Z) :=
  [(0x1680, 0x1680); (0x2000, 0x200A); (0x2028, 0x2029); (0x202F, 0x202F);
   (0x205F, 0x205F); (0x3000, 0x3000)].

Definition IsPunct (r : Z) : bool :=
  if (0 <=? r) && (r <=? MaxLatin1) then in_ranges latin1_punct r
  else in_ranges Punct r.

Definition IsSpace (r : Z) : bool :=
  if (0 <=? r) && (r <=? MaxLatin1) then
    (9 <=? r) && (r <=? 13) || (r =? 0x20) || (r =? 0x85) || (r =? 0xA0)
  else in_ranges White_Space r.

End unicode.

(** ** strings: [FieldsFunc], [TrimSpace] *)

Module strings.

Section Funcs.
Variable f : Z -> bool.

(** The loop of [FieldsFunc] over the runes of the string: [e] is the byte
    index of the current rune, [start] the start of the open span (negative
    when there is none), [spans] the spans recorded so far. *)
Fixpoint fields_loop (rs : list (Z * nat)) (e start : Z) (spans : list (Z * Z))
  : Z * list (Z * Z) :=
  match rs with
  | [] => (start, spans)
  | (r, w) :: rs' =>
    let '(start', spans') :=
      if f r then
        if 0 <=? start then (Z.lnot start, spans ++ [(start, e)])
        else (start, spans)
      else
        if start <? 0 then (e, spans) else (start, spans) in
    fields_loop rs' (e + Z.of_nat w) start' spans'
  end.

Definition FieldsFunc (s : list Z) : list (list Z) :=
  let '(start, spans) := fields_loop (utf8.runes s) 0 (-1) [] in
  let spans :=
    if 0 <=? start then spans ++ [(start, Z.of_nat (length s))] else spans in
  map (fun '(lo, hi) => slice s lo hi) spans.

(** [indexFunc]: the index of the first rune [r] with [f r = truth], or -1. *)
Fixpoint indexFunc_loop (truth : bool) (rs : list (Z * nat)) (i : Z) : Z :=
  match rs with
  | [] => -1
  | (r, w) :: rs' =>
    if Bool.eqb (f r) truth then i
    else indexFunc_loop truth rs' (i + Z.of_nat w)
  end.

Definition indexFunc (s : list Z) (truth : bool) : Z :=
  indexFunc_loop truth (utf8.runes s) 0.

(** [lastIndexFunc]: the same from the end of the string. *)
Fixpoint lastIndexFunc_loop (fuel : nat) (s : list Z) (truth : bool) (i : Z)
  : Z :=
  match fuel with
  | O => -1
  | S k =>
    if 0 <? i then
      let '(r, size) := utf8.DecodeLastRune (slice s 0 i) in
      let i' := i - Z.of_nat size in
      if Bool.eqb (f r) truth then i'
      else lastIndexFunc_loop k s truth i'
    else -1
  end.

Definition lastIndexFunc (s : list Z) (truth : bool) : Z :=
  lastIndexFunc_loop (length s) s truth (Z.of_nat (length s)).

Definition TrimLeftFunc (s : list Z) : list Z :=
  let i := indexFunc s false in
  if i =? -1 then [] else slice s i (Z.of_nat (length s)).

Definition TrimRightFunc (s : list Z) : list Z :=
  let i := lastIndexFunc s false in
  let i :=
    if (0 <=? i) && (utf8.RuneSelf <=? default 0 (s !! Z.to_nat i)) then
      i + Z.of_nat (snd (utf8.DecodeRune (slice s i (Z.of_nat (length s)))))
    else i + 1 in
  slice s 0 i.

Definition TrimFunc (s : list Z) : list Z := TrimRightFunc (TrimLeftFunc s).

End Funcs.

(** The table [asciiSpace]. *)
Definition asciiSpace (c : Z) : bool :=
  (9 <=? c) && (c <=? 13) || (c =? 32).

Inductive scan : Type :=
| NonASCII (i : Z)   (* a byte >= RuneSelf was met at this index *)
| Stop (i : Z).      (* the loop ended with this index *)

(** First loop of [TrimSpace]: forward over the ASCII white space. *)
Fixpoint scan_start (t : list Z) (start : Z) : scan :=
  match t with
  | [] => Stop start
  | c :: t' =>
    if utf8.RuneSelf <=? c then NonASCII start
    else if asciiSpace c then scan_start t' (start + 1)
    else Stop start
  end.

(** Second loop of [TrimSpace]: backward from the end, down to [start];
    [rt] is the string reversed. *)
Fixpoint scan_stop (rt : list Z) (stop start : Z) : scan :=
  match rt with
  | [] => Stop stop
  | c :: rt' =>
    if stop <=? start then Stop stop
    else if utf8.RuneSelf <=? c then NonASCII stop
    else if asciiSpace c then scan_stop rt' (stop - 1) start
    else Stop stop
  end.

Definition TrimSpace (s : list Z) : list Z :=
  let n := Z.of_nat (length s) in
  match scan_start s 0 with
  | NonASCII start => TrimFunc unicode.IsSpace (slice s start n)
  | Stop start =>
    match scan_stop (reverse s) n start with
    | NonASCII stop => TrimRightFunc unicode.IsSpace (slice s start stop)
    | Stop stop => slice s start stop
    end
  end.

End strings.

(** ** strconv: [ParseUint], [ParseInt], [Atoi] with base 10 *)

Module strconv.

Inductive num_err : Type := ErrSyntax | ErrRange.

(** [*NumError]: the failing function, the input and the reason. *)
Record NumError : Type := mkNumError
  { Func : string; Num : list Z; Err : num_err }.

Definition syntaxError (fn : string) (s : list Z) : NumError :=
  mkNumError fn s ErrSyntax.
Definition rangeError (fn : string) (s : list Z) : NumError :=
  mkNumError fn s ErrRange.

Definition lower (c : Z) : Z := Z.lor c 0x20.

(** The digit loop of [ParseUint s 10 64]; [n] is the value read so far. *)
Fixpoint parseUint_loop (s0 cs : list Z) (n : Z) : Z * option NumError :=
  match cs with
  | [] => (n, None)
  | c :: cs' =>
    let cutoff := maxUint64 / 10 + 1 in
    let maxVal := maxUint64 in
    if (48 <=? c) && (c <=? 57) then
      let d := c - 48 in
      if 10 <=? d then (0, Some (syntaxError "ParseUint" s0))
      else if cutoff <=? n then (maxVal, Some (rangeError "ParseUint" s0))
      else
        let n' := wrapU64 (n * 10) in
        let n1 := wrapU64 (n' + d) in
        if (n1 <? n') || (maxVal <? n1) then
          (maxVal, Some (rangeError "ParseUint" s0))
        else parseUint_loop s0 cs' n1
    else if (97 <=? lower c) && (lower c <=? 122) then
      let d := lower c - 97 + 10 in
      if 10 <=? d then (0, Some (syntaxError "ParseUint" s0))
      else (0, Some (syntaxError "ParseUint" s0))
    else (0, Some (syntaxError "ParseUint" s0))
  end.

Definition ParseUint (s : list Z) : Z * option NumError :=
  match s with
  | [] => (0, Some (syntaxError "ParseUint" s))
  | _ => parseUint_loop s s 0
  end.

(** [ParseInt s 10 64]. *)
Definition ParseInt (s : list Z) : Z * option NumError :=
  match s with
  | [] => (0, Some (syntaxError "ParseInt" s))
  | c :: t =>
    let '(neg, s') :=
      if c =? 43 then (false, t)
      else if c =? 45 then (true, t)
      else (false, s) in
    let '(un, err) := ParseUint s' in
    match err with
    | Some (mkNumError _ _ ErrSyntax) => (0, Some (syntaxError "ParseInt" s))
    | _ =>
      let cutoff := 2 ^ 63 in
      if negb neg && (cutoff <=? un) then
        (cutoff - 1, Some (rangeError "ParseInt" s))
      else if neg && (cutoff <? un) then
        (- cutoff, Some (rangeError "ParseInt" s))
      else
        let n := wrap64 un in
        ((if neg then wrap64 (- n) else n), None)
    end
  end.

(** The digit loop of the fast path of [Atoi]; [ch -= '0'] is a byte
    subtraction. *)
Fixpoint atoi_fast_loop (s0 cs : list Z) (n : Z) : Z * option NumError :=
  match cs with
  | [] => (n, None)
  | ch :: cs' =>
    let ch' := (ch - 48) mod 256 in
    if 9 <? ch' then (0, Some (syntaxError "Atoi" s0))
    else atoi_fast_loop s0 cs' (wrap64 (wrap64 (n * 10) + ch'))
  end.

(** [Atoi] where [int] has 64 bits. *)
Definition Atoi (s : list Z) : Z * option NumError :=
  let sLen := Z.of_nat (length s) in
  if (0 <? sLen) && (sLen <? 19) then
    match s with
    | [] => (0, Some (syntaxError "Atoi" s))
    | c :: t =>
      let signed := (c =? 45) || (c =? 43) in
      if signed && (Z.of_nat (length t) <? 1) then
        (0, Some (syntaxError "Atoi" s))
      else
        let '(n, err) := atoi_fast_loop s (if signed then t else s) 0 in
        match err with
        | Some e => (0, Some e)
        | None => ((if c =? 45 then wrap64 (- n) else n), None)
        end
    end
  else
    let '(i64, err) := ParseInt s in
    (i64, option_map (fun e => mkNumError "Atoi" (Num e) (Err e)) err).

End strconv.

(** ** Outcome of a Go call that may panic *)

Inductive go (A : Type) : Type :=
| Return (a : A)
| Panic (msg : string).
Arguments Return {A} a.
Arguments Panic {A} msg.

(** ** parseResize2fsOutputForMinSize *)

Definition is_separator (r : Z) : bool :=
  unicode.IsPunct r || unicode.IsSpace r.

(** [split[len(split)-1]] panics when the index is out of range. *)
Definition parseResize2fsOutputForMinSize (out : string)
  : go (Z * option strconv.NumError) :=
  let split := strings.FieldsFunc is_separator (bytes_of out) in
  let i := Z.of_nat (length split) - 1 in
  if (0 <=? i) && (i <? Z.of_nat (length split)) then
    Return (strconv.ParseInt (default [] (split !! Z.to_nat i)))
  else Panic "index out of range".

Definition nl : string := String (ascii_of_nat 10) EmptyString.


(** ** Errors *)

(** A path is the list of its components. *)
Abbreviation path := (list string).

Inductive errno : Type := ENOENT | EEXIST | ENOTDIR | EINVAL.

Inductive error : Type :=
| ErrNotFound                                  (* errdefs.ErrNotFound *)
| ErrExternal (msg : string)                   (* an error of a tool, a source or the kernel *)
| ErrPath (op : string) (p : path) (e : errno) (* *os.PathError, *os.LinkError *)
| ErrNum (e : strconv.NumError)                (* *strconv.NumError *)
| ErrWrapf (cause : error) (msg uid : string)  (* errors.Wrapf(err, msg, uid) *)
| ErrErrorf (msg arg : string) (cause : error) (* fmt.Errorf(msg, arg, err) *)
| ErrTarExtract (stderr : option (list Z)) (cause : error).

(** [containerderr.IsNotFound]: the cause of the error is [ErrNotFound]. *)
Fixpoint IsNotFound (e : error) : bool :=
  match e with
  | ErrNotFound => true
  | ErrWrapf cause _ _ => IsNotFound cause
  | _ => false
  end.

(** [os.IsNotExist]. *)
Definition IsNotExist (e : error) : bool :=
  match e with
  | ErrPath _ _ ENOENT => true
  | _ => false
  end.

(** ** Images, sources, the environment and the world *)

(** [api.Image], as far as the pipeline reads it: [GetUID], [ObjectPath]
    and [Status.OCISource.Size.Bytes] (a [uint64]). *)
Record Image : Type := mkImage
  { GetUID : string; ObjectPath : path; SizeBytes : Z }.

(** [source.Source]: what its two methods answer. *)
Record Source : Type := mkSource
  { Reader : option error; Cleanup : option error }.

Inductive node : Type :=
| File (size : Z)
| Dir
| Symlink (target : string).

Record FileInfo : Type := mkFileInfo { IsDir : bool; Size : Z }.

(** The functions of the pipeline; an event records which one made the call. *)
Inductive func : Type :=
| FnCreateImageFilesystem | FnAddFiles | FnTarExtract | FnSetupResolvConf
| FnResizeToMinimum | FnGetMinSize.

Inductive operation : Type :=
| OpCreate (p : path)
| OpOpenFile (p : path)
| OpTruncate (p : path) (n : Z)
| OpClose (p : path)
| OpExec (cmd : string) (args : list string)
| OpTempDir
| OpRemoveAll (p : path)
| OpReader
| OpReaderClose
| OpStart (cmd : string) (args : list string)
| OpWait (cmd : string)
| OpCleanup
| OpAttach (p : path) (readOnly : bool)
| OpDetach (dev : string)
| OpStat (p : path)
| OpMkdirAll (p : path)
| OpSymlink (target : string) (p : path).

Definition event : Type := func * operation.

(** The answers of the operating system and of the external tools. *)
Record Env : Type := mkEnv
  { Getenv : string -> string;
    create_answer : path -> option error;
    open_answer : path -> option error;
    truncate_answer : path -> Z -> option error;
    close_answer : path -> option error;
    exec_answer : string -> list string -> string * option error;
    tempdir_answer : path * option error;
    start_answer : string -> list string -> option error;
    wait_answer : string -> option error;
    tar_stderr : list Z;
    extracted : path -> gmap path node;
    follow : path -> string -> FileInfo + error;
    attach_answer : path -> bool -> string * option error;
    detach_answer : string -> option error }.

(** The world: the calls made so far, the lengths of the regular files of
    the host, and the tree of the filesystem under the mount point. *)
Record World : Type := mkWorld
  { trace : list event;
    lengths : gmap path Z;
    tree : gmap path node }.

(** ** The monad of the pipeline: state, and panics *)

Definition M (A : Type) : Type := World -> go A * World.

Definition ret {A} (a : A) : M A := fun w => (Return a, w).

Definition bind {A B} (m : M A) (k : A -> M B) : M B :=
  fun w =>
    match m w with
    | (Return a, w') => k a w'
    | (Panic msg, w') => (Panic msg, w')
    end.

#[global] Instance M_ret : MRet M := @ret.
#[global] Instance M_bind : MBind M := fun A B k m => bind m k.

Definition log (fn : func) (op : operation) : M unit :=
  fun w => (Return tt, mkWorld (trace w ++ [(fn, op)]) (lengths w) (tree w)).

Definition set_length (p : path) (n : Z) : M unit :=
  fun w => (Return tt, mkWorld (trace w) (<[p := n]> (lengths w)) (tree w)).

Definition set_tree (t : gmap path node) : M unit :=
  fun w => (Return tt, mkWorld (trace w) (lengths w) t).

Definition get_tree : M (gmap path node) := fun w => (Return (tree w), w).

Definition panic {A} (msg : string) : M A := fun w => (Panic msg, w).

Definition lift {A} (r : go A) : M A := fun w => (r, w).

(** [defer f()]: [f] runs when the body is left, also by a panic; what it
    returns is dropped. *)
Definition defer {A B} (f : M B) (body : M A) : M A :=
  fun w => let '(r, w1) := body w in (r, snd (f w1)).

(** Modelled from the spec: [util.DeferErr], which is not among the sources.
    The deferred call always runs; its error is reported only when no
    earlier error exists. *)
Definition DeferErr (err : option error) (f : M (option error))
  : M (option error) :=
  fErr ← f;
  mret (match err with Some e => Some e | None => fErr end).

(** [defer util.DeferErr(&err, f)] in a function whose named result is
    [err]. *)
Definition defer_err (f : M (option error)) (body : M (option error))
  : M (option error) :=
  fun w =>
    match body w with
    | (Return err, w1) => DeferErr err f w1
    | (Panic msg, w1) => (Panic msg, snd (f w1))
    end.

(** The same where the named results are [(minSize, err)]. *)
Definition defer_err2 (f : M (option error)) (body : M (Z * option error))
  : M (Z * option error) :=
  fun w =>
    match body w with
    | (Return (n, err), w1) => (err' ← DeferErr err f; mret (n, err')) w1
    | (Panic msg, w1) => (Panic msg, snd (f w1))
    end.

(** ** Constants *)

Definition blockSize : Z := 4096.
Definition defaultMinimumBaseSizeGB : Z := 10.
Definition baseImageSizeMultiplier : Z := 5.
Definition minimumBaseSizeGBEnv : string := "IGNITE_BASE_IMAGE_MIN_SIZE_GB".

(** Modelled from the spec: [constants.IMAGE_FS], the name of the backing
    file under the object path of the image ([<ObjectPath>/IMAGE_FS]). *)
Definition IMAGE_FS : string := "image.ext4".

(** [path.Join(img.ObjectPath(), constants.IMAGE_FS)]. *)
Definition image_path (img : Image) : path := ObjectPath img ++ [IMAGE_FS].

Definition path_string (p : path) : string :=
  match p with
  | [] => "/"
  | _ => String.concat "" (map (fun c => "/" +:+ c) p)
  end.

(** [strconv.FormatInt(n, 10)] and [strconv.Itoa]. *)
Definition FormatInt (n : Z) : string := NilZero.string_of_int (Z.to_int n).

Section Pipeline.

Variable env : Env.

(** ** The primitives: each logs its call and answers from the
    environment *)

Definition os_Create (fn : func) (p : path) : M (option error) :=
  log fn (OpCreate p);;
  match create_answer env p with
  | Some e => mret (Some e)
  | None => set_length p 0;; mret None
  end.

Definition os_OpenFile (fn : func) (p : path) : M (option error) :=
  log fn (OpOpenFile p);; mret (open_answer env p).

(** [Truncate] of an open file: a negative length is refused with [EINVAL]. *)
Definition file_Truncate (fn : func) (p : path) (n : Z) : M (option error) :=
  log fn (OpTruncate p n);;
  if n <? 0 then mret (Some (ErrPath "truncate" p EINVAL))
  else match truncate_answer env p n with
       | Some e => mret (Some e)
       | None => set_length p n;; mret None
       end.

Definition file_Close (fn : func) (p : path) : M (option error) :=
  log fn (OpClose p);; mret (close_answer env p).

(** Modelled from the spec: [util.ExecuteCommand], which is not among the
    sources: it runs the command, blocks until it ends and returns its
    output and its error. *)
Definition ExecuteCommand (fn : func) (cmd : string) (args : list string)
  : M (string * option error) :=
  log fn (OpExec cmd args);; mret (exec_answer env cmd args).

Definition ioutil_TempDir (fn : func) : M (path * option error) :=
  log fn OpTempDir;; mret (tempdir_answer env).

Definition os_RemoveAll (fn : func) (p : path) : M unit :=
  log fn (OpRemoveAll p).

(** Modelled from the spec: [newLoopDev] and [Detach] of the loop-device
    manager, which are not among the sources: attach binds the file to a
    loop device and returns its path, detach releases it. *)
Definition newLoopDev (fn : func) (p : path) (readOnly : bool)
  : M (string * option error) :=
  log fn (OpAttach p readOnly);; mret (attach_answer env p readOnly).

Definition loop_Detach (fn : func) (dev : string) : M (option error) :=
  log fn (OpDetach dev);; mret (detach_answer env dev).

(** ** The filesystem under the mount point *)

(** [os.Stat]: follows a symbolic link, through [follow]. *)
Definition Stat (t : gmap path node) (p : path) : FileInfo + error :=
  match p with
  | [] => inl (mkFileInfo true 4096)
  | _ =>
    match t !! p with
    | None => inr (ErrPath "stat" p ENOENT)
    | Some (File n) => inl (mkFileInfo false n)
    | Some Dir => inl (mkFileInfo true 4096)
    | Some (Symlink target) => follow env p target
    end
  end.

(** [os.Lstat] tells only whether the path is a directory. *)
Definition Lstat_is_dir (t : gmap path node) (p : path) : bool :=
  match p with
  | [] => true
  | _ => match t !! p with Some Dir => true | _ => false end
  end.

(** [filepath.Dir] on a list of components. *)
Definition filepath_Dir (p : path) : path := removelast p.

(** [os.Mkdir]. *)
Definition Mkdir (t : gmap path node) (p : path)
  : option error * gmap path node :=
  match p with
  | [] => (Some (ErrPath "mkdir" p EEXIST), t)
  | _ =>
    match t !! p with
    | Some _ => (Some (ErrPath "mkdir" p EEXIST), t)
    | None =>
      match Stat t (filepath_Dir p) with
      | inr _ => (Some (ErrPath "mkdir" p ENOENT), t)
      | inl fi =>
        if IsDir fi then (None, <[p := Dir]> t)
        else (Some (ErrPath "mkdir" p ENOTDIR), t)
      end
    end
  end.

(** [os.MkdirAll]: the fast path on [Stat], then the parent, then [Mkdir]. *)
Fixpoint MkdirAll_rec (fuel : nat) (t : gmap path node) (p : path)
  : option error * gmap path node :=
  match Stat t p with
  | inl fi =>
    if IsDir fi then (None, t) else (Some (ErrPath "mkdir" p ENOTDIR), t)
  | inr _ =>
    match fuel with
    | O => (Some (ErrPath "mkdir" p ENOENT), t)
    | S k =>
      let '(perr, t1) :=
        if (1 <? length p)%nat then MkdirAll_rec k t (filepath_Dir p)
        else (None, t) in
      match perr with
      | Some e => (Some e, t1)
      | None =>
        let '(err, t2) := Mkdir t1 p in
        match err with
        | Some e =>
          if Lstat_is_dir t2 p then (None, t2) else (Some e, t2)
        | None => (None, t2)
        end
      end
    end
  end.

Definition os_MkdirAll (fn : func) (p : path) : M (option error) :=
  log fn (OpMkdirAll p);;
  t ← get_tree;
  let '(err, t') := MkdirAll_rec (length p) t p in
  set_tree t';; mret err.

(** [os.Symlink]: fails when the new name exists. *)
Definition Symlink_tree (t : gmap path node) (target : string) (p : path)
  : option error * gmap path node :=
  match p with
  | [] => (Some (ErrPath "symlink" p EEXIST), t)
  | _ =>
    match t !! p with
    | Some _ => (Some (ErrPath "symlink" p EEXIST), t)
    | None =>
      match Stat t (filepath_Dir p) with
      | inr _ => (Some (ErrPath "symlink" p ENOENT), t)
      | inl fi =>
        if IsDir fi then (None, <[p := Symlink target]> t)
        else (Some (ErrPath "symlink" p ENOTDIR), t)
      end
    end
  end.

Definition os_Symlink (fn : func) (target : string) (p : path)
  : M (option error) :=
  log fn (OpSymlink target p);;
  t ← get_tree;
  let '(err, t') := Symlink_tree t target p in
  set_tree t';; mret err.

(** Modelled from the spec: [util.FileIsEmpty], which is not among the
    sources: a file that does not exist, or of length zero, is empty; any
    other failure of the file-stat is an error. *)
Definition FileIsEmpty (fn : func) (p : path) : M (bool * option error) :=
  log fn (OpStat p);;
  t ← get_tree;
  match Stat t p with
  | inr e => if IsNotExist e then mret (true, None) else mret (false, Some e)
  | inl fi => mret (Size fi =? 0, None)
  end.

(** ** TarExtract *)

Definition TarExtract (src : Source) (dir : path) (args : list string)
  : M (option error) :=
  let args := ["-x"; "-C"; path_string dir] ++ args in
  log FnTarExtract OpReader;;
  match Reader src with
  | Some err => mret (Some err)
  | None =>
    defer (log FnTarExtract OpReaderClose)
      (log FnTarExtract (OpStart "tar" args);;
       match start_answer env "tar" args with
       | Some err => mret (Some err)
       | None =>
         (* tar writes into [dir] while it runs *)
         set_tree (extracted env dir);;
         log FnTarExtract (OpWait "tar");;
         match wait_answer env "tar" with
         | Some err =>
           if (0 <? length (tar_stderr env))%nat then
             mret (Some (ErrTarExtract
                           (Some (strings.TrimSpace (tar_stderr env))) err))
           else mret (Some (ErrTarExtract None err))
         | None =>
           log FnTarExtract OpCleanup;;
           match Cleanup src with
           | Some err =>
             (* Ignore the cleanup error if the resource no longer exists. *)
             if negb (IsNotFound err) then mret (Some err) else mret None
           | None => mret None
           end
         end
       end)
  end.

(** ** getMinimumBaseSizeBytes and the planned size *)

Definition getMinimumBaseSizeBytes : Z :=
  let gb := defaultMinimumBaseSizeGB in
  let s := Getenv env minimumBaseSizeGBEnv in
  let gb :=
    if negb (String.eqb s "") then
      let '(n, err) := strconv.Atoi (strings.TrimSpace (bytes_of s)) in
      match err with
      | None => if (1 <=? n) && (n <=? 100) then n else gb
      | Some _ => gb
      end
    else gb in
  wrap64 (wrap64 (wrap64 (wrap64 gb * 1024) * 1024) * 1024).

(** [baseImageSize] of [CreateImageFilesystem]. *)
Definition baseImageSize (img : Image) : Z :=
  let minimumBaseSizeBytes := getMinimumBaseSizeBytes in
  let computedSize :=
    wrap64 (wrap64 (SizeBytes img) * wrap64 baseImageSizeMultiplier) in
  if computedSize <? minimumBaseSizeBytes then minimumBaseSizeBytes
  else computedSize.

(** ** setupResolvConf *)

Definition resolvConf_path (tempDir : path) : path :=
  tempDir ++ ["etc"; "resolv.conf"].

Definition setupResolvConf (tempDir : path) : M (option error) :=
  let resolvConf := resolvConf_path tempDir in
  '(empty, err) ← FileIsEmpty FnSetupResolvConf resolvConf;
  match err with
  | Some e => mret (Some e)
  | None =>
    if negb empty then mret None
    else
      err ← os_MkdirAll FnSetupResolvConf (filepath_Dir resolvConf);
      match err with
      | Some e => mret (Some e)
      | None => os_Symlink FnSetupResolvConf "../proc/net/pnp" resolvConf
      end
  end.

(** ** addFiles *)

Definition addFiles (img : Image) (src : Source) : M (option error) :=
  let p := image_path img in
  '(tempDir, err) ← ioutil_TempDir FnAddFiles;
  match err with
  | Some e => mret (Some e)
  | None =>
    defer (os_RemoveAll FnAddFiles tempDir)
      ('(_, err) ← ExecuteCommand FnAddFiles "mount"
                     ["-o"; "loop"; path_string p; path_string tempDir];
       match err with
       | Some e =>
         mret (Some (ErrErrorf "failed to mount image %q: %v"
                               (path_string p) e))
       | None =>
         defer_err
           ('(_, execErr) ← ExecuteCommand FnAddFiles "umount"
                              [path_string tempDir];
            mret execErr)
           (err ← TarExtract src tempDir [];
            match err with
            | Some e => mret (Some e)
            | None => setupResolvConf tempDir
            end)
       end)
  end.

(** ** getMinSize and resizeToMinimum *)

Definition getMinSize (p : path) : M (Z * option error) :=
  '(imageLoop, err) ← newLoopDev FnGetMinSize p false;
  match err with
  | Some e => mret (0, Some e)
  | None =>
    defer_err2 (loop_Detach FnGetMinSize imageLoop)
      (ExecuteCommand FnGetMinSize "e2fsck" ["-p"; "-f"; imageLoop];;
       '(out, err) ← ExecuteCommand FnGetMinSize "resize2fs"
                        ["-P"; imageLoop];
       match err with
       | Some e => mret (0, Some e)
       | None =>
         '(minSize, perr) ← lift (parseResize2fsOutputForMinSize out);
         match perr with
         | Some e => mret (minSize, Some (ErrNum e))
         | None =>
           '(_, err) ← ExecuteCommand FnGetMinSize "resize2fs"
                         [imageLoop; FormatInt minSize];
           mret (minSize, err)
         end
       end)
  end.

Definition resizeToMinimum (img : Image) : M (option error) :=
  let p := image_path img in
  '(minSize, err) ← getMinSize p;
  match err with
  | Some e => mret (Some e)
  | None =>
    err ← os_OpenFile FnResizeToMinimum p;
    match err with
    | Some e => mret (Some e)
    | None =>
      defer_err (file_Close FnResizeToMinimum p)
        (let minSizeBytes := wrap64 (minSize * blockSize) in
         err ← file_Truncate FnResizeToMinimum p minSizeBytes;
         match err with
         | Some e =>
           mret (Some (ErrErrorf "failed to shrink image %q: %v"
                                 (GetUID img) e))
         | None => mret None
         end)
    end
  end.

(** ** CreateImageFilesystem *)

Definition CreateImageFilesystem (img : Image) (src : Source)
  : M (option error) :=
  let p := image_path img in
  err ← os_Create FnCreateImageFilesystem p;
  match err with
  | Some e =>
    mret (Some (ErrWrapf e "failed to create image file for %s" (GetUID img)))
  | None =>
    defer (file_Close FnCreateImageFilesystem p)
      (err ← file_Truncate FnCreateImageFilesystem p (baseImageSize img);
       match err with
       | Some e =>
         mret (Some (ErrWrapf e "failed to allocate space for image %s"
                              (GetUID img)))
       | None =>
         '(_, err) ← ExecuteCommand FnCreateImageFilesystem "mkfs.ext4"
                       ["-b"; FormatInt blockSize; "-I"; "256"; "-F"; "-E";
                        "lazy_itable_init=0,lazy_journal_init=0";
                        path_string p];
         match err with
         | Some e =>
           mret (Some (ErrWrapf e "failed to format image %s" (GetUID img)))
         | None =>
           err ← addFiles img src;
           match err with
           | Some e => mret (Some e)
           | None =>
             err ← resizeToMinimum img;
             match err with
             | Some e => mret (Some e)
             | None => mret None
             end
           end
         end
       end)
  end.

End Pipeline.

(** ** Definitions that follow the words of the specification *)

(** The characters of a text: the runes with the bytes that encode them. *)
Fixpoint chars_of (rs : list (Z * nat)) (s : list Z) : list (Z * list Z) :=
  match rs with
  | [] => []
  | (r, w) :: rs' => (r, take w s) :: chars_of rs' (drop w s)
  end.

Definition chars (s : list Z) : list (Z * list Z) :=
  chars_of (utf8.runes s) s.

Definition emit (cur : list Z) : list (list Z) :=
  match cur with [] => [] | _ => [cur] end.

(** Splitting on every run of separators: [cur] is the token being read. *)
Fixpoint split_runs (sep : Z -> bool) (cs : list (Z * list Z)) (cur : list Z)
  : list (list Z) :=
  match cs with
  | [] => emit cur
  | (r, bs) :: cs' =>
    if sep r then emit cur ++ split_runs sep cs' []
    else split_runs sep cs' (cur ++ bs)
  end.

(** The tokens of a text: what is left between the runs of punctuation or
    white space. *)
Definition tokens (out : string) : list (list Z) :=
  split_runs is_separator (chars (bytes_of out)) [].

(** The value of a sequence of decimal digits. *)
Fixpoint digits_value (acc : Z) (cs : list Z) : option Z :=
  match cs with
  | [] => Some acc
  | c :: cs' =>
    if (48 <=? c) && (c <=? 57) then digits_value (acc * 10 + (c - 48)) cs'
    else None
  end.

Definition unsigned_value (cs : list Z) : option Z :=
  match cs with [] => None | _ => digits_value 0 cs end.

(** The integer value of a token: an optional sign, then decimal digits. *)
Definition int_value (s : list Z) : option Z :=
  match s with
  | [] => None
  | c :: t =>
    if c =? 43 then unsigned_value t
    else if c =? 45 then Z.opp <$> unsigned_value t
    else unsigned_value s
  end.

(** The override of the floor, in GB: the value of the environment
    variable when it parses as an integer of [1,100]. *)
Definition override_GB (s : string) : option Z :=
  match int_value (strings.TrimSpace (bytes_of s)) with
  | Some n => if (1 <=? n) && (n <=? 100) then Some n else None
  | None => None
  end.

Definition floor_bytes (s : string) : Z :=
  match override_GB s with
  | Some n => n * 2 ^ 30
  | None => 10 * 2 ^ 30
  end.





(** An error that carries the identity of the image. *)
Definition identifies (uid : string) (e : error) : bool :=
  match e with
  | ErrWrapf _ _ u => String.eqb u uid
  | ErrErrorf _ u _ => String.eqb u uid
  | _ => false
  end.

(** The environment with another answer of one command. *)
Definition with_exec (env : Env) (cmd : string) (ans : string * option error)
  : Env :=
  mkEnv (Getenv env) (create_answer env) (open_answer env)
        (truncate_answer env) (close_answer env)
        (fun c args =>
           if String.eqb c cmd then ans else exec_answer env c args)
        (tempdir_answer env) (start_answer env) (wait_answer env)
        (tar_stderr env) (extracted env) (follow env)
        (attach_answer env) (detach_answer env).

(** The environment with another answer of the filesystem checker. *)
Definition with_e2fsck (env : Env) (ans : string * option error) : Env :=
  with_exec env "e2fsck" ans.

(** The block count that the output of the estimate carries. *)
Definition estimate (env : Env) (img : Image)
  : go (Z * option strconv.NumError) :=
  let dev := fst (attach_answer env (image_path img) false) in
  parseResize2fsOutputForMinSize
    (fst (exec_answer env "resize2fs" ["-P"; dev])).

(** ** The calls of the shrink stage *)

Definition add_events (w : World) (evs : list event) : World :=
  mkWorld (trace w ++ evs) (lengths w) (tree w).

Definition ev_attach (p : path) : event := (FnGetMinSize, OpAttach p false).
Definition ev_e2fsck (dev : string) : event :=
  (FnGetMinSize, OpExec "e2fsck" ["-p"; "-f"; dev]).
Definition ev_estimate (dev : string) : event :=
  (FnGetMinSize, OpExec "resize2fs" ["-P"; dev]).
Definition ev_resize (dev : string) (n : Z) : event :=
  (FnGetMinSize, OpExec "resize2fs" [dev; FormatInt n]).
Definition ev_detach (dev : string) : event := (FnGetMinSize, OpDetach dev).
Definition ev_reopen (p : path) : event := (FnResizeToMinimum, OpOpenFile p).
Definition ev_truncate (p : path) (n : Z) : event :=
  (FnResizeToMinimum, OpTruncate p n).
Definition ev_close (p : path) : event := (FnResizeToMinimum, OpClose p).

(** The error that [resizeToMinimum] makes of a failed truncation. *)
Definition shrink_error (img : Image) (e : error) : error :=
  ErrErrorf "failed to shrink image %q: %v" (GetUID img) e.

(** ** The calls of the format stage *)

Definition mkfs_args (p : path) : list string :=
  ["-b"; FormatInt blockSize; "-I"; "256"; "-F"; "-E";
   "lazy_itable_init=0,lazy_journal_init=0"; path_string p].

Definition ev_create (p : path) : event :=
  (FnCreateImageFilesystem, OpCreate p).
Definition ev_allocate (p : path) (n : Z) : event :=
  (FnCreateImageFilesystem, OpTruncate p n).
Definition ev_mkfs (p : path) : event :=
  (FnCreateImageFilesystem, OpExec "mkfs.ext4" (mkfs_args p)).
Definition ev_release (p : path) : event :=
  (FnCreateImageFilesystem, OpClose p).
Definition ev_tempdir : event := (FnAddFiles, OpTempDir).

(** The format stage fails: the creation, the allocation or the formatter
    answers with an error. *)
Definition format_fails (env : Env) (img : Image) : Prop :=
  let p := image_path img in
  create_answer env p <> None \/
  truncate_answer env p (baseImageSize env img) <> None \/
  snd (exec_answer env "mkfs.ext4" (mkfs_args p)) <> None.

(** The world after a format stage without failure. *)
Definition after_format (env : Env) (img : Image) (w : World) : World :=
  let p := image_path img in
  let n := baseImageSize env img in
  mkWorld (trace w ++ [ev_create p; ev_allocate p n; ev_mkfs p])
          (<[p := n]> (<[p := 0]> (lengths w))) (tree w).




(** ** Predicates of the statements *)

(** A byte value. *)
Definition is_byte (b : Z) : Prop := 0 <= b < 256.

(** A token: not empty, and not starting with a minus sign. *)
Definition token_ok (tok : list Z) : Prop :=
  tok <> [] /\ head tok <> Some 45.

(** The range of [int64]. *)
Definition in_int64 (v : Z) : bool := (minInt64 <=? v) && (v <=? maxInt64).

(** The result of [TarExtract] after [Cleanup] answered. *)
Definition cleanup_result (src : Source) : option error :=
  match Cleanup src with
  | Some e => if IsNotFound e then None else Some e
  | None => None
  end.

(** How the truncation of the reopened file to [target] fails with [e]. *)
Definition truncate_fails (env : Env) (p : path) (target : Z) (e : error)
  : Prop :=
  (target < 0 /\ e = ErrPath "truncate" p EINVAL) \/
  (0 <= target /\ truncate_answer env p target = Some e).


(** The open span [start] of the loop of [FieldsFunc] at index [i] of [s]
    is the token [cur] being read. *)
Definition open_token (s : list Z) (i : nat) (start : Z) (cur : list Z)
  : Prop :=
  (start < 0 /\ cur = []) \/
  (exists a : nat, start = Z.of_nat a /\ (a < i)%nat /\
                   cur = take (i - a) (drop a s)).

(** ** The calls of the populate stage *)

Definition mount_args (p d : path) : list string :=
  ["-o"; "loop"; path_string p; path_string d].

Definition ev_mount (p d : path) : event :=
  (FnAddFiles, OpExec "mount" (mount_args p d)).
Definition ev_umount (d : path) : event :=
  (FnAddFiles, OpExec "umount" [path_string d]).
Definition ev_removeall (d : path) : event := (FnAddFiles, OpRemoveAll d).

(** The error that [addFiles] makes of a failed mount. *)
Definition mount_error (p : path) (e : error) : error :=
  ErrErrorf "failed to mount image %q: %v" (path_string p) e.

(** What [addFiles] does between the mount and the unmount. *)
Definition populate_body (env : Env) (src : Source) (d : path)
  : M (option error) :=
  err ← TarExtract env src d [];
  match err with
  | Some e => mret (Some e)
  | None => setupResolvConf env d
  end.

(** A call made by the extraction or by the set-up of [resolv.conf]. *)
Definition extraction_call (e : event) : Prop :=
  fst e = FnTarExtract \/ fst e = FnSetupResolvConf.

(** A call of an external command. *)
Definition is_exec (e : event) : Prop :=
  exists cmd args, snd e = OpExec cmd args.

(** The calls of a successful [TarExtract]. *)
Definition tar_events (d : path) (args : list string) : list event :=
  [(FnTarExtract, OpReader);
   (FnTarExtract, OpStart "tar" (["-x"; "-C"; path_string d] ++ args));
   (FnTarExtract, OpWait "tar"); (FnTarExtract, OpCleanup);
   (FnTarExtract, OpReaderClose)].

(** The calls of [setupResolvConf] when it goes on to make the link. *)
Definition resolv_events (d : path) : list event :=
  [(FnSetupResolvConf, OpStat (resolvConf_path d));
   (FnSetupResolvConf, OpMkdirAll (d ++ ["etc"]));
   (FnSetupResolvConf, OpSymlink "../proc/net/pnp" (resolvConf_path d))].

(** A token without an ASCII separator byte. *)
Definition ascii_clean (tok : list Z) : Prop :=
  Forall (fun b => b < 128 -> is_separator b = false) tok.

(** ** Example inputs *)

(** The two outputs of [resize2fs -P] quoted in the source. *)
Definition estimate_en : string :=
  "resize2fs 1.45.3 (14-Jul-2019)" +:+ nl +:+
  "Estimated minimum size of the filesystem: 5813528" +:+ nl.

Definition estimate_zh : string :=
  "resize2fs 1.44.1 (24-Mar-2018)" +:+ nl +:+
  "预计文件系统的最小尺寸：61817".

(** An environment in which every call succeeds: [getenv] answers [ov]
    for every variable, the estimate prints [est], and tar leaves the
    tree [t] under the mount point. *)
Definition quiet_env (ov est : string) (t : gmap path node) : Env :=
  mkEnv (fun _ => ov) (fun _ => None) (fun _ => None) (fun _ _ => None)
        (fun _ => None)
        (fun cmd args =>
           match args with
           | ["-P"; _] => (est, None)
           | _ => ("", None)
           end)
        (["tmp"; "ignite"], None) (fun _ _ => None) (fun _ => None) []
        (fun _ => t) (fun p _ => inr (ErrPath "stat" p ENOENT))
        (fun _ _ => ("/dev/loop0", None)) (fun _ => None).

Definition with_wait (env : Env) (ans : option error) (stderr : list Z) : Env :=
  mkEnv (Getenv env) (create_answer env) (open_answer env)
        (truncate_answer env) (close_answer env) (exec_answer env)
        (tempdir_answer env) (start_answer env) (fun _ => ans)
        stderr (extracted env) (follow env)
        (attach_answer env) (detach_answer env).

Definition with_attach (env : Env) (ans : string * option error) : Env :=
  mkEnv (Getenv env) (create_answer env) (open_answer env)
        (truncate_answer env) (close_answer env) (exec_answer env)
        (tempdir_answer env) (start_answer env) (wait_answer env)
        (tar_stderr env) (extracted env) (follow env)
        (fun _ _ => ans) (detach_answer env).

Definition empty_world : World := mkWorld [] ∅ ∅.

Definition example_image : Image :=
  mkImage "5c7fa0e0" ["var"; "lib"; "firecracker"; "image"; "5c7fa0e0"]
          (2 * 2 ^ 30).

Definition example_source : Source := mkSource None None.

Definition mount_point : path := ["tmp"; "ignite"].

(** The mounted filesystem after an extraction that brought no [etc]. *)
Definition bare_tree : gmap path node := {[ mount_point := Dir ]}.

(** The same with an empty [etc/resolv.conf]. *)
Definition empty_resolv_tree : gmap path node :=
  <[ mount_point ++ ["etc"; "resolv.conf"] := File 0 ]>
    (<[ mount_point ++ ["etc"] := Dir ]> bare_tree).

(** The same with a [resolv.conf] of 37 bytes. *)
Definition resolv_tree : gmap path node :=
  <[ mount_point ++ ["etc"; "resolv.conf"] := File 37 ]>
    (<[ mount_point ++ ["etc"] := Dir ]> bare_tree).

(** * Properties *)

(** ** Bytes and slices *)

Lemma byte_of_range c : is_byte (byte_of c).
Proof.
  unfold is_byte, byte_of.
  pose proof (N_ascii_bounded c). lia.
Qed.

Lemma bytes_of_range s : Forall is_byte (bytes_of s).
Proof.
  induction s as [|c s IH]; simpl; constructor; auto using byte_of_range.
Qed.

Lemma slice_nat (s : list Z) (i j : nat) :
  slice s (Z.of_nat i) (Z.of_nat j) = take (j - i) (drop i s).
Proof.
  unfold slice. f_equal; [lia | f_equal; lia].
Qed.

Lemma slice_range (s : list Z) lo hi : Forall is_byte s -> Forall is_byte (slice s lo hi).
Proof.
  intros H. unfold slice. apply Forall_take, Forall_drop, H.
Qed.

Lemma slice_app (s : list Z) (a b c : nat) :
  (a <= b <= c)%nat ->
  take (b - a) (drop a s) ++ take (c - b) (drop b s) = take (c - a) (drop a s).
Proof.
  intros Hab.
  replace (c - a)%nat with ((b - a) + (c - b))%nat by lia.
  rewrite <- take_take_drop, drop_drop.
  do 3 f_equal. lia.
Qed.

(** ** Decoding *)

Lemma DecodeRune_width s r w :
  s <> [] -> utf8.DecodeRune s = (r, w) -> (1 <= w <= length s)%nat.
Proof.
  intros Hs H. destruct s as [|s0 t]; [done|].
  unfold utf8.DecodeRune in H.
  repeat case_match; simplify_eq; simpl; lia.
Qed.

Lemma DecodeRune_ascii b t :
  0 <= b < 128 -> utf8.DecodeRune (b :: t) = (b, 1%nat).
Proof.
  intros Hb. unfold utf8.DecodeRune, utf8.first.
  replace (b <? 128) with true by lia. reflexivity.
Qed.

Lemma runes_skip_drop k s : utf8.runes_skip k s = utf8.runes (drop k s).
Proof.
  revert k. induction s as [|b t IH]; intros k.
  - by destruct k.
  - destruct k as [|k]; [done|]. simpl. apply IH.
Qed.

Lemma runes_cons s r w :
  s <> [] -> utf8.DecodeRune s = (r, w) ->
  utf8.runes s = (r, w) :: utf8.runes (drop w s).
Proof.
  intros Hs H. pose proof (DecodeRune_width s r w Hs H) as Hw.
  destruct s as [|b t]; [done|].
  unfold utf8.runes at 1. cbn [utf8.runes_skip]. rewrite H.
  f_equal. rewrite runes_skip_drop.
  destruct w as [|w]; [lia|]. reflexivity.
Qed.

Lemma runes_nil_inv s : utf8.runes s = [] -> s = [].
Proof.
  destruct s as [|b t]; [done|]. intros H.
  destruct (utf8.DecodeRune (b :: t)) as [r w] eqn:E.
  rewrite (runes_cons _ r w) in H; done.
Qed.

(** ** [FieldsFunc] splits on the runs of separators *)

Section FieldsFunc_refines.

Variable f : Z -> bool.
Variable s : list Z.

Let sl : Z * Z -> list Z := fun '(lo, hi) => slice s lo hi.

Let final (start : Z) (spans : list (Z * Z)) : list (Z * Z) :=
  if 0 <=? start then spans ++ [(start, Z.of_nat (length s))] else spans.

Lemma fields_loop_split rs :
  forall (i : nat) start spans cur start' spans',
    rs = utf8.runes (drop i s) -> (i <= length s)%nat ->
    open_token s i start cur ->
    strings.fields_loop f rs (Z.of_nat i) start spans = (start', spans') ->
    map sl (final start' spans')
    = map sl spans ++ split_runs f (chars_of rs (drop i s)) cur.
Proof.
  induction rs as [|[r w] rs' IH]; intros i start spans cur start' spans' Hrs Hi Hopen Hloop.
  - symmetry in Hrs. apply runes_nil_inv in Hrs.
    assert (i = length s) as ->.
    { apply (f_equal length) in Hrs. rewrite length_drop in Hrs. simpl in Hrs. lia. }
    simpl in Hloop. simplify_eq. simpl. unfold final.
    destruct Hopen as [[Hneg ->]|(a & -> & Ha & ->)].
    + replace (0 <=? start') with false by lia. simpl. by rewrite app_nil_r.
    + replace (0 <=? Z.of_nat a) with true by lia.
      rewrite map_app. f_equal. simpl. rewrite slice_nat.
      destruct (take (length s - a) (drop a s)) eqn:E; [|done].
      apply (f_equal length) in E. rewrite length_take, length_drop in E.
      simpl in E. lia.
  - assert (drop i s <> []) as Hne.
    { intros E. rewrite E in Hrs. done. }
    destruct (utf8.DecodeRune (drop i s)) as [r0 w0] eqn:Hdec.
    pose proof (DecodeRune_width _ _ _ Hne Hdec) as Hw.
    rewrite (runes_cons _ _ _ Hne Hdec), drop_drop in Hrs.
    rewrite length_drop in Hw. simplify_eq.
    cbn [strings.fields_loop] in Hloop.
    replace (Z.of_nat i + Z.of_nat w0) with (Z.of_nat (i + w0)) in Hloop by lia.
    cbn [chars_of split_runs]. rewrite drop_drop.
    destruct (f r0) eqn:Hf.
    + destruct Hopen as [[Hneg ->]|(a & -> & Ha & ->)].
      * replace (0 <=? start) with false in Hloop by lia.
        apply (IH _ _ _ [] _ _ eq_refl ltac:(lia)) in Hloop; [|by left].
        by rewrite Hloop.
      * replace (0 <=? Z.of_nat a) with true in Hloop by lia.
        apply (IH _ _ _ [] _ _ eq_refl ltac:(lia)) in Hloop;
          [|left; split; [unfold Z.lnot; lia|done]].
        rewrite Hloop, map_app, <- app_assoc. f_equal. simpl. rewrite slice_nat.
        destruct (take (i - a) (drop a s)) eqn:E; [|done].
        apply (f_equal length) in E. rewrite length_take, length_drop in E.
        simpl in E. lia.
    + destruct Hopen as [[Hneg ->]|(a & -> & Ha & ->)].
      * replace (start <? 0) with true in Hloop by lia.
        apply (IH _ _ _ ([] ++ take w0 (drop i s)) _ _ eq_refl ltac:(lia))
          in Hloop; [exact Hloop|].
        right. exists i. split; [done|]. split; [lia|].
        simpl. f_equal. lia.
      * replace (Z.of_nat a <? 0) with false in Hloop by lia.
        apply (IH _ _ _ (take (i - a) (drop a s) ++ take w0 (drop i s)) _ _
                  eq_refl ltac:(lia)) in Hloop; [exact Hloop|].
        right. exists a. split; [done|]. split; [lia|].
        rewrite <- (slice_app s a i (i + w0)) by lia.
        do 2 f_equal. lia.
Qed.

Lemma FieldsFunc_split_runs :
  strings.FieldsFunc f s = split_runs f (chars s) [].
Proof.
  unfold strings.FieldsFunc, chars.
  destruct (strings.fields_loop f (utf8.runes s) 0 (-1) []) as [start spans] eqn:E.
  pose proof (fields_loop_split (utf8.runes s) 0 (-1) [] [] start spans) as H.
  rewrite drop_0 in H. specialize (H eq_refl ltac:(lia) ltac:(by left) E).
  exact H.
Qed.

End FieldsFunc_refines.

(** ** Tokens never start with a minus sign *)

Lemma minus_is_separator : is_separator 45 = true.
Proof. reflexivity. Qed.

Lemma emit_token_ok cur :
  cur = [] \/ token_ok cur -> Forall token_ok (emit cur).
Proof.
  intros [->|Hok]; [constructor|].
  destruct cur; [constructor|].
  simpl. constructor; [exact Hok|constructor].
Qed.

Lemma split_runs_token_ok rs :
  forall t cur,
    rs = utf8.runes t -> cur = [] \/ token_ok cur ->
    Forall token_ok (split_runs is_separator (chars_of rs t) cur).
Proof.
  induction rs as [|[r w] rs' IH]; intros t cur Hrs Hcur.
  - by apply emit_token_ok.
  - assert (t <> []) as Hne by (intros ->; done).
    destruct (utf8.DecodeRune t) as [r0 w0] eqn:Hdec.
    pose proof (DecodeRune_width _ _ _ Hne Hdec) as Hw.
    rewrite (runes_cons _ _ _ Hne Hdec) in Hrs. simplify_eq.
    cbn [chars_of split_runs].
    destruct (is_separator r0) eqn:Hsep.
    + apply Forall_app. split; [by apply emit_token_ok|].
      apply IH; [done|by left].
    + apply IH; [done|]. right.
      destruct Hcur as [->|[Hc Hh]].
      * destruct t as [|b t']; [done|]. destruct w0 as [|w0]; [lia|].
        simpl. split; [done|]. simpl. intros [= ->].
        rewrite DecodeRune_ascii in Hdec by lia. simplify_eq.
      * destruct cur as [|c cur]; [done|]. split; [done|]. exact Hh.
Qed.

Lemma tokens_ok out : Forall token_ok (tokens out).
Proof.
  unfold tokens, chars. apply split_runs_token_ok; [done|by left].
Qed.

(** ** strconv computes the integer value *)

Lemma pow2_64 : 2 ^ 64 = 18446744073709551616.
Proof. reflexivity. Qed.

Lemma pow2_63 : 2 ^ 63 = 9223372036854775808.
Proof. reflexivity. Qed.

Ltac consts :=
  unfold maxUint64, maxInt64, minInt64, blockSize in *;
  rewrite ?pow2_64, ?pow2_63 in *.

Lemma wrapU64_small z : 0 <= z < 2 ^ 64 -> wrapU64 z = z.
Proof. intros H. unfold wrapU64. apply Z.mod_small, H. Qed.

Lemma wrapU64_over z : 2 ^ 64 <= z < 2 * 2 ^ 64 -> wrapU64 z = z - 2 ^ 64.
Proof.
  intros H. unfold wrapU64. consts. Z.div_mod_to_equations. lia.
Qed.

Lemma wrap64_small z : - 2 ^ 63 <= z < 2 ^ 63 -> wrap64 z = z.
Proof.
  intros H. unfold wrap64. consts. Z.div_mod_to_equations. lia.
Qed.

Lemma digits_value_ge cs : forall acc v,
  0 <= acc -> digits_value acc cs = Some v -> acc <= v.
Proof.
  induction cs as [|c cs IH]; intros acc v Hacc H; simpl in H.
  - by simplify_eq.
  - destruct ((48 <=? c) && (c <=? 57)) eqn:E; [|done].
    apply IH in H; lia.
Qed.

Lemma unsigned_value_nonneg cs v : unsigned_value cs = Some v -> 0 <= v.
Proof.
  destruct cs; [done|]. apply digits_value_ge. lia.
Qed.

Lemma parseUint_loop_spec s0 cs : forall n,
  0 <= n <= maxUint64 ->
  match digits_value n cs with
  | Some v =>
    if v <=? maxUint64 then strconv.parseUint_loop s0 cs n = (v, None)
    else strconv.parseUint_loop s0 cs n
         = (maxUint64, Some (strconv.rangeError "ParseUint" s0))
  | None =>
    strconv.parseUint_loop s0 cs n
    = (0, Some (strconv.syntaxError "ParseUint" s0)) \/
    strconv.parseUint_loop s0 cs n
    = (maxUint64, Some (strconv.rangeError "ParseUint" s0))
  end.
Proof.
  induction cs as [|c cs IH]; intros n Hn.
  - simpl. by replace (n <=? maxUint64) with true by lia.
  - cbn [digits_value strconv.parseUint_loop].
    destruct ((48 <=? c) && (c <=? 57)) eqn:Hd.
    + replace (10 <=? c - 48) with false by lia.
      assert (maxUint64 / 10 + 1 = 1844674407370955162) as -> by reflexivity.
      destruct (1844674407370955162 <=? n) eqn:Hcut.
      * destruct (digits_value (n * 10 + (c - 48)) cs) as [v|] eqn:Hv; [|by right].
        apply digits_value_ge in Hv; [|lia].
        replace (v <=? maxUint64) with false; [done|]. consts. lia.
      * rewrite (wrapU64_small (n * 10)) by (consts; lia).
        destruct (decide (n * 10 + (c - 48) < 2 ^ 64)) as [Hlt|Hge].
        -- rewrite wrapU64_small by lia.
           replace ((n * 10 + (c - 48) <? n * 10)
                    || (maxUint64 <? n * 10 + (c - 48))) with false
             by (consts; lia).
           apply IH. consts. lia.
        -- rewrite wrapU64_over by (consts; lia).
           replace (n * 10 + (c - 48) - 2 ^ 64 <? n * 10) with true
             by (consts; lia).
           cbn [orb].
           destruct (digits_value (n * 10 + (c - 48)) cs) as [v|] eqn:Hv; [|by right].
           apply digits_value_ge in Hv; [|lia].
           replace (v <=? maxUint64) with false; [done|]. consts. lia.
    + left. by repeat case_match.
Qed.

Lemma ParseUint_spec s :
  match unsigned_value s with
  | Some v =>
    if v <=? maxUint64 then strconv.ParseUint s = (v, None)
    else strconv.ParseUint s
         = (maxUint64, Some (strconv.rangeError "ParseUint" s))
  | None =>
    strconv.ParseUint s = (0, Some (strconv.syntaxError "ParseUint" s)) \/
    strconv.ParseUint s = (maxUint64, Some (strconv.rangeError "ParseUint" s))
  end.
Proof.
  destruct s as [|c t]; [by left|].
  unfold unsigned_value, strconv.ParseUint.
  apply parseUint_loop_spec. consts. lia.
Qed.

(** The sign handling of [ParseInt], after [ParseUint] has answered. *)
Lemma ParseInt_spec s :
  match int_value s with
  | Some v =>
    if in_int64 v then strconv.ParseInt s = (v, None)
    else exists x e, strconv.ParseInt s = (x, Some e)
  | None => exists x e, strconv.ParseInt s = (x, Some e)
  end.
Proof.
  destruct s as [|c t]; [by eexists _, _|].
  unfold int_value, strconv.ParseInt, in_int64.
  destruct (c =? 43) eqn:Hplus; [|destruct (c =? 45) eqn:Hminus].
  - pose proof (ParseUint_spec t) as H.
    destruct (unsigned_value t) as [v|] eqn:Hv.
    + pose proof (unsigned_value_nonneg _ _ Hv) as Hv0.
      destruct (v <=? maxUint64) eqn:Hmax; rewrite H; cbn [negb andb].
      * destruct (2 ^ 63 <=? v) eqn:Hc.
        -- replace ((minInt64 <=? v) && (v <=? maxInt64)) with false
             by (consts; lia).
           by eexists _, _.
        -- replace ((minInt64 <=? v) && (v <=? maxInt64)) with true
             by (consts; lia).
           by rewrite wrap64_small by lia.
      * replace ((minInt64 <=? v) && (v <=? maxInt64)) with false
          by (consts; lia).
        cbn. by eexists _, _.
    + destruct H as [-> | ->]; cbn; by eexists _, _.
  - pose proof (ParseUint_spec t) as H.
    destruct (unsigned_value t) as [v|] eqn:Hv; cbn [fmap option_fmap option_map].
    + pose proof (unsigned_value_nonneg _ _ Hv) as Hv0.
      destruct (v <=? maxUint64) eqn:Hmax; rewrite H; cbn [negb andb].
      * destruct (2 ^ 63 <? v) eqn:Hc.
        -- replace ((minInt64 <=? - v) && (- v <=? maxInt64)) with false
             by (consts; lia).
           by eexists _, _.
        -- replace ((minInt64 <=? - v) && (- v <=? maxInt64)) with true
             by (consts; lia).
           destruct (decide (v = 2 ^ 63)) as [->|Hne].
           ++ reflexivity.
           ++ by rewrite (wrap64_small v), wrap64_small by lia.
      * replace ((minInt64 <=? - v) && (- v <=? maxInt64)) with false
          by (consts; lia).
        cbn. by eexists _, _.
    + destruct H as [-> | ->]; cbn; by eexists _, _.
  - pose proof (ParseUint_spec (c :: t)) as H.
    destruct (unsigned_value (c :: t)) as [v|] eqn:Hv.
    + pose proof (unsigned_value_nonneg _ _ Hv) as Hv0.
      destruct (v <=? maxUint64) eqn:Hmax; rewrite H; cbn [negb andb].
      * destruct (2 ^ 63 <=? v) eqn:Hc.
        -- replace ((minInt64 <=? v) && (v <=? maxInt64)) with false
             by (consts; lia).
           by eexists _, _.
        -- replace ((minInt64 <=? v) && (v <=? maxInt64)) with true
             by (consts; lia).
           by rewrite wrap64_small by lia.
      * replace ((minInt64 <=? v) && (v <=? maxInt64)) with false
          by (consts; lia).
        cbn. by eexists _, _.
    + destruct H as [-> | ->]; cbn; by eexists _, _.
Qed.

Lemma atoi_fast_loop_spec s0 cs : forall n,
  Forall is_byte cs -> 0 <= n ->
  (n + 1) * 10 ^ Z.of_nat (length cs) <= 10 ^ 18 ->
  match digits_value n cs with
  | Some v => strconv.atoi_fast_loop s0 cs n = (v, None) /\ 0 <= v < 10 ^ 18
  | None => exists e, strconv.atoi_fast_loop s0 cs n = (0, Some e)
  end.
Proof.
  induction cs as [|c cs IH]; intros n Hb Hn Hlen.
  - simpl in *. split; [done|]. lia.
  - apply Forall_cons in Hb as [Hc Hb]. unfold is_byte in Hc.
    cbn [digits_value strconv.atoi_fast_loop].
    cbn [length] in Hlen. rewrite Nat2Z.inj_succ, Z.pow_succ_r in Hlen by lia.
    assert (0 < 10 ^ Z.of_nat (length cs)) as Hpos by (apply Z.pow_pos_nonneg; lia).
    destruct ((48 <=? c) && (c <=? 57)) eqn:Hd.
    + replace ((c - 48) mod 256) with (c - 48)
        by (symmetry; apply Z.mod_small; lia).
      replace (9 <? c - 48) with false by lia.
      assert ((n + 1) * 10 <= 10 ^ 18) as Hn10 by nia.
      change (10 ^ 18) with 1000000000000000000 in Hn10.
      rewrite (wrap64_small (n * 10)) by (consts; lia).
      rewrite wrap64_small by (consts; lia).
      apply IH; [done|lia|nia].
    + replace (9 <? (c - 48) mod 256) with true; [by eexists|].
      symmetry. apply Z.ltb_lt. Z.div_mod_to_equations. lia.
Qed.

Lemma Atoi_spec s :
  Forall is_byte s ->
  match int_value s with
  | Some v =>
    if in_int64 v then strconv.Atoi s = (v, None)
    else exists x e, strconv.Atoi s = (x, Some e)
  | None => exists x e, strconv.Atoi s = (x, Some e)
  end.
Proof.
  intros Hb. unfold strconv.Atoi.
  destruct ((0 <? Z.of_nat (length s)) && (Z.of_nat (length s) <? 19)) eqn:Hfast.
  - destruct s as [|c t]; [by eexists _, _|].
    cbn [length] in Hfast.
    apply andb_prop in Hfast as [_ Hfast]. apply Z.ltb_lt in Hfast.
    assert (10 ^ Z.of_nat (length t) <= 10 ^ 17) as Ht
      by (apply Z.pow_le_mono_r; lia).
    assert (10 * 10 ^ Z.of_nat (length t) = 10 ^ Z.of_nat (length (c :: t))) as Hs.
    { cbn [length]. rewrite Nat2Z.inj_succ, Z.pow_succ_r by lia. done. }
    apply Forall_cons in Hb as Hb'. destruct Hb' as [_ Hbt].
    unfold int_value, in_int64.
    destruct (c =? 43) eqn:Hplus; [|destruct (c =? 45) eqn:Hminus].
    + replace (c =? 45) with false by lia. cbn [orb andb].
      destruct t as [|c' t']; [by eexists _, _|].
      replace (Z.of_nat (length (c' :: t')) <? 1) with false
        by (symmetry; apply Z.ltb_ge; cbn [length]; lia).
      pose proof (atoi_fast_loop_spec (c :: c' :: t') (c' :: t') 0 Hbt
                    ltac:(lia) ltac:(change (10 ^ 18) with (10 * 10 ^ 17); lia)) as H.
      unfold unsigned_value.
      destruct (digits_value 0 (c' :: t')) as [v|].
      * destruct H as [-> Hv]. change (10 ^ 18) with 1000000000000000000 in Hv.
        by replace ((minInt64 <=? v) && (v <=? maxInt64)) with true
          by (consts; lia).
      * destruct H as [e ->]. by eexists _, _.
    + cbn [orb andb].
      destruct t as [|c' t']; [by eexists _, _|].
      replace (Z.of_nat (length (c' :: t')) <? 1) with false
        by (symmetry; apply Z.ltb_ge; cbn [length]; lia).
      pose proof (atoi_fast_loop_spec (c :: c' :: t') (c' :: t') 0 Hbt
                    ltac:(lia) ltac:(change (10 ^ 18) with (10 * 10 ^ 17); lia)) as H.
      unfold unsigned_value.
      destruct (digits_value 0 (c' :: t')) as [v|]; cbn [fmap option_fmap option_map].
      * destruct H as [-> Hv]. change (10 ^ 18) with 1000000000000000000 in Hv.
        replace ((minInt64 <=? - v) && (- v <=? maxInt64)) with true
          by (consts; lia).
        by rewrite wrap64_small by (consts; lia).
      * destruct H as [e ->]. by eexists _, _.
    + cbn [orb andb].
      pose proof (atoi_fast_loop_spec (c :: t) (c :: t) 0 Hb
                    ltac:(lia) ltac:(rewrite <- Hs; change (10 ^ 18) with (10 * 10 ^ 17); lia)) as H.
      unfold unsigned_value.
      destruct (digits_value 0 (c :: t)) as [v|].
      * destruct H as [-> Hv]. change (10 ^ 18) with 1000000000000000000 in Hv.
        by replace ((minInt64 <=? v) && (v <=? maxInt64)) with true
          by (consts; lia).
      * destruct H as [e ->]. by eexists _, _.
  - pose proof (ParseInt_spec s) as H.
    destruct (int_value s) as [v|].
    + destruct (in_int64 v).
      * by rewrite H.
      * destruct H as (x & e & ->). by eexists _, _.
    + destruct H as (x & e & ->). by eexists _, _.
Qed.

(** ** [TrimSpace] returns bytes of its argument *)

Lemma TrimRightFunc_range f s :
  Forall is_byte s -> Forall is_byte (strings.TrimRightFunc f s).
Proof. intros H. unfold strings.TrimRightFunc. by apply slice_range. Qed.

Lemma TrimLeftFunc_range f s :
  Forall is_byte s -> Forall is_byte (strings.TrimLeftFunc f s).
Proof.
  intros H. unfold strings.TrimLeftFunc.
  case_match; [constructor|by apply slice_range].
Qed.

Lemma TrimSpace_range s :
  Forall is_byte s -> Forall is_byte (strings.TrimSpace s).
Proof.
  intros H. unfold strings.TrimSpace, strings.TrimFunc.
  repeat case_match;
    auto using TrimRightFunc_range, TrimLeftFunc_range, slice_range.
Qed.

(** ** The floor of the allocation *)

Lemma String_eqb_empty s : String.eqb s "" = true -> s = "".
Proof. by destruct s. Qed.

Lemma getMinimumBaseSizeBytes_floor env :
  getMinimumBaseSizeBytes env = floor_bytes (Getenv env minimumBaseSizeGBEnv).
Proof.
  unfold getMinimumBaseSizeBytes, floor_bytes, override_GB.
  destruct (String.eqb (Getenv env minimumBaseSizeGBEnv) "") eqn:E.
  - apply String_eqb_empty in E. rewrite E. reflexivity.
  - cbn [negb].
    pose proof (Atoi_spec (strings.TrimSpace (bytes_of (Getenv env minimumBaseSizeGBEnv)))
                  (TrimSpace_range _ (bytes_of_range _))) as H.
    destruct (int_value _) as [v|].
    + destruct (in_int64 v) eqn:Hr.
      * rewrite H. destruct ((1 <=? v) && (v <=? 100)) eqn:Hv; [|reflexivity].
        assert (1 <= v <= 100) as Hv' by lia.
        change (2 ^ 30) with 1073741824.
        rewrite (wrap64_small v) by (consts; lia).
        rewrite (wrap64_small (v * 1024)) by (consts; lia).
        rewrite (wrap64_small (v * 1024 * 1024)) by (consts; lia).
        rewrite wrap64_small by (consts; lia). lia.
      * destruct H as (x & e & ->).
        replace ((1 <=? v) && (v <=? 100)) with false; [reflexivity|].
        unfold in_int64 in Hr. consts. lia.
    + destruct H as (x & e & ->). reflexivity.
Qed.

Lemma floor_bytes_range s : 2 ^ 30 <= floor_bytes s <= 100 * 2 ^ 30.
Proof.
  unfold floor_bytes, override_GB.
  repeat case_match; simplify_eq; lia.
Qed.

(** ** The planned allocation (claim C1) *)

(** C1, as stated, fails: for a nominal size of [2^62] bytes the product
    [5 x S] leaves the range of [int64], and the planned size is [2^62],
    not [max (5 x S) floor]. *)
Lemma planned_size_overflows :
  ~ (forall env img,
       0 <= SizeBytes img ->
       baseImageSize env img
       = Z.max (5 * SizeBytes img)
               (floor_bytes (Getenv env minimumBaseSizeGBEnv))).
Proof.
  intros H.
  specialize (H (quiet_env "" "" bare_tree) (mkImage "a" [] (2 ^ 62))).
  vm_compute in H. specialize (H ltac:(discriminate)). discriminate.
Qed.

(** C1 (amended): for every nominal size [S >= 0] with [5 x S] in the range
    of [int64], the planned allocation is [max (5 x S) floor]; [floor] is
    the override times [2^30] exactly when the override parses as an integer
    of [1,100], and [10 x 2^30] otherwise. *)
Theorem planned_size_is_max env img :
  0 <= SizeBytes img -> 5 * SizeBytes img <= maxInt64 ->
  baseImageSize env img
  = Z.max (5 * SizeBytes img) (floor_bytes (Getenv env minimumBaseSizeGBEnv))
  /\ getMinimumBaseSizeBytes env
     = floor_bytes (Getenv env minimumBaseSizeGBEnv).
Proof.
  intros H0 Hmax. split; [|apply getMinimumBaseSizeBytes_floor].
  unfold baseImageSize. rewrite getMinimumBaseSizeBytes_floor.
  unfold baseImageSizeMultiplier.
  rewrite (wrap64_small (SizeBytes img)) by (consts; lia).
  rewrite (wrap64_small 5) by (consts; lia).
  rewrite wrap64_small by (consts; lia).
  destruct (Z.ltb_spec (SizeBytes img * 5)
              (floor_bytes (Getenv env minimumBaseSizeGBEnv))); lia.
Qed.

Lemma planned_size_is_max_witness :
  baseImageSize (quiet_env "15" "" bare_tree) example_image
  = Z.max (5 * SizeBytes example_image) (floor_bytes "15")
  /\ getMinimumBaseSizeBytes (quiet_env "15" "" bare_tree) = floor_bytes "15".
Proof.
  apply (planned_size_is_max (quiet_env "15" "" bare_tree) example_image).
  - vm_compute. discriminate.
  - vm_compute. discriminate.
Defined.

(** Overrides that are empty, not numeric or out of range give the default;
    white space around the number is ignored. *)
Example floor_examples :
  floor_bytes "" = 10 * 2 ^ 30 /\ floor_bytes "abc" = 10 * 2 ^ 30 /\
  floor_bytes "0" = 10 * 2 ^ 30 /\ floor_bytes "101" = 10 * 2 ^ 30 /\
  floor_bytes "1" = 2 ^ 30 /\ floor_bytes " 15 " = 15 * 2 ^ 30 /\
  floor_bytes "100" = 100 * 2 ^ 30.
Proof. repeat split; reflexivity. Qed.

(** ** The output parser (claims C2, C4, C10) *)

Lemma parse_last_token out :
  parseResize2fsOutputForMinSize out
  = match last (tokens out) with
    | Some tok => Return (strconv.ParseInt tok)
    | None => Panic "index out of range"
    end.
Proof.
  unfold parseResize2fsOutputForMinSize, tokens.
  rewrite FieldsFunc_split_runs.
  generalize (split_runs is_separator (chars (bytes_of out)) []).
  intros l. destruct l as [|x l] using rev_ind; [done|].
  rewrite last_snoc, length_app. cbn [length].
  replace (Z.of_nat (length l + 1) - 1) with (Z.of_nat (length l)) by lia.
  replace ((0 <=? Z.of_nat (length l))
           && (Z.of_nat (length l) <? Z.of_nat (length l + 1))) with true
    by (symmetry; apply andb_true_intro; split;
        [apply Z.leb_le|apply Z.ltb_lt]; lia).
  rewrite Nat2Z.id, list_lookup_middle by done. done.
Qed.

Lemma ParseInt_ok_value tok n :
  strconv.ParseInt tok = (n, None) -> int_value tok = Some n /\ in_int64 n = true.
Proof.
  intros H. pose proof (ParseInt_spec tok) as Hs.
  destruct (int_value tok) as [v|].
  - destruct (in_int64 v) eqn:Hr.
    + rewrite H in Hs. by simplify_eq.
    + destruct Hs as (x & e & Hs). rewrite H in Hs. done.
  - destruct Hs as (x & e & Hs). rewrite H in Hs. done.
Qed.

(** C2: when the parser succeeds, the text splits on the runs of punctuation
    and white space into tokens of which the last has the returned integer
    value; the English output gives 5813528 and the Chinese one 61817. *)
Theorem parse_returns_last_token :
  (forall out n,
     parseResize2fsOutputForMinSize out = Return (n, None) ->
     exists toks tok, tokens out = toks ++ [tok] /\ int_value tok = Some n)
  /\ parseResize2fsOutputForMinSize estimate_en = Return (5813528, None)
  /\ parseResize2fsOutputForMinSize estimate_zh = Return (61817, None).
Proof.
  split; [|split; vm_compute; reflexivity].
  intros out n H. rewrite parse_last_token in H.
  destruct (tokens out) as [|tok toks] eqn:Htoks using rev_ind; [done|].
  rewrite last_snoc in H. simplify_eq.
  exists toks, tok. split; [done|].
  by apply ParseInt_ok_value.
Qed.

Lemma parse_returns_last_token_witness :
  exists toks tok,
    tokens estimate_zh = toks ++ [tok] /\ int_value tok = Some 61817.
Proof.
  apply (proj1 parse_returns_last_token estimate_zh 61817).
  vm_compute. reflexivity.
Defined.

(** The tokens of the Chinese output: the text before the full-width colon,
    and the digits. *)
Example tokens_zh :
  tokens estimate_zh
  = [bytes_of "resize2fs"; bytes_of "1"; bytes_of "44"; bytes_of "1";
     bytes_of "24"; bytes_of "Mar"; bytes_of "2018";
     bytes_of "预计文件系统的最小尺寸"; bytes_of "61817"].
Proof. vm_compute. reflexivity. Qed.

(** C4: a text without a token, such as the empty text, does not make the
    parser return an error: the token list is empty and indexing its last
    element panics. *)
Theorem parse_empty_panics :
  tokens "" = [] /\
  parseResize2fsOutputForMinSize "" = Panic "index out of range" /\
  (forall out,
     tokens out = [] ->
     parseResize2fsOutputForMinSize out = Panic "index out of range").
Proof.
  split; [reflexivity|]. split; [reflexivity|].
  intros out H. by rewrite parse_last_token, H.
Qed.

Lemma parse_empty_panics_witness :
  parseResize2fsOutputForMinSize (nl +:+ " -- " +:+ nl)
  = Panic "index out of range".
Proof.
  apply (proj2 (proj2 parse_empty_panics) (nl +:+ " -- " +:+ nl)).
  vm_compute. reflexivity.
Defined.

(** The other half of C4 holds: a last token that is not an integer of
    [int64] gives an error value. *)
Lemma parse_bad_token_error out toks tok :
  tokens out = toks ++ [tok] ->
  (forall n, int_value tok = Some n -> in_int64 n = false) ->
  exists x e, parseResize2fsOutputForMinSize out = Return (x, Some e).
Proof.
  intros Htoks Hbad. rewrite parse_last_token, Htoks, last_snoc.
  pose proof (ParseInt_spec tok) as Hs.
  destruct (int_value tok) as [v|].
  - rewrite (Hbad v eq_refl) in Hs. destruct Hs as (x & e & ->). by eexists _, _.
  - destruct Hs as (x & e & ->). by eexists _, _.
Qed.

Example parse_no_digits :
  parseResize2fsOutputForMinSize "no digits here"
  = Return (0, Some (strconv.syntaxError "ParseInt" (bytes_of "here"))).
Proof. reflexivity. Qed.

Lemma int_value_nonneg tok n :
  head tok <> Some 45 -> int_value tok = Some n -> 0 <= n.
Proof.
  intros Hh H. destruct tok as [|c t]; [done|].
  unfold int_value in H.
  destruct (c =? 43); [by eapply unsigned_value_nonneg|].
  destruct (c =? 45) eqn:E; [|by eapply unsigned_value_nonneg].
  apply Z.eqb_eq in E. subst. by destruct Hh.
Qed.

Lemma parse_ok_nonneg out n :
  parseResize2fsOutputForMinSize out = Return (n, None) ->
  0 <= n <= maxInt64.
Proof.
  intros H. rewrite parse_last_token in H.
  pose proof (tokens_ok out) as Hok.
  destruct (tokens out) as [|tok toks _] using rev_ind; [done|].
  rewrite last_snoc in H. simplify_eq.
  apply Forall_app in Hok as [_ Hok]. apply Forall_singleton in Hok as [_ Hh].
  apply ParseInt_ok_value in H as [Hv Hr].
  split; [by eapply int_value_nonneg|].
  unfold in_int64 in Hr. lia.
Qed.

(** C10, as stated, fails in its last part: the text [2251799813685248]
    parses to [2^51] blocks, and the truncation target that
    [resizeToMinimum] computes from it, a 64-bit product, is [-2^63]. *)
Lemma truncation_target_negative :
  parseResize2fsOutputForMinSize "2251799813685248"
  = Return (2251799813685248, None)
  /\ In (FnResizeToMinimum,
         OpTruncate (image_path example_image) (-9223372036854775808))
        (trace (snd (resizeToMinimum
                       (quiet_env "" "2251799813685248" bare_tree)
                       example_image empty_world))).
Proof.
  split; [reflexivity|]. vm_compute. tauto.
Qed.

(** C10 (amended): when the parser succeeds the block count is not negative:
    the minus sign is punctuation, so no token starts with it; and below
    [2^51] blocks the 64-bit truncation target is the product, not
    negative. *)
Theorem parse_block_count_nonneg out n :
  parseResize2fsOutputForMinSize out = Return (n, None) ->
  is_separator 45 = true /\ Forall token_ok (tokens out) /\
  0 <= n <= maxInt64 /\
  (n < 2 ^ 51 ->
   wrap64 (n * blockSize) = n * blockSize /\ 0 <= wrap64 (n * blockSize)).
Proof.
  intros H. split; [reflexivity|]. split; [apply tokens_ok|].
  pose proof (parse_ok_nonneg out n H) as Hn. split; [done|].
  intros Hlt. change (2 ^ 51) with 2251799813685248 in Hlt.
  rewrite wrap64_small by (consts; lia). consts. lia.
Qed.

Lemma parse_block_count_nonneg_witness :
  is_separator 45 = true /\ Forall token_ok (tokens estimate_en) /\
  0 <= 5813528 <= maxInt64 /\
  (5813528 < 2 ^ 51 ->
   wrap64 (5813528 * blockSize) = 5813528 * blockSize /\
   0 <= wrap64 (5813528 * blockSize)).
Proof.
  apply (parse_block_count_nonneg estimate_en 5813528).
  vm_compute. reflexivity.
Defined.

(** ** Running the monad *)

Ltac run :=
  repeat progress
    (unfold mbind, M_bind, bind, mret, M_ret, ret, defer, defer_err,
       defer_err2, DeferErr, log, set_length, set_tree, get_tree, lift,
       panic in *;
     cbn [fst snd trace lengths tree] in *).

Ltac prims :=
  unfold os_Create, os_OpenFile, file_Truncate, file_Close, ExecuteCommand,
    ioutil_TempDir, os_RemoveAll, newLoopDev, loop_Detach, os_MkdirAll,
    os_Symlink, FileIsEmpty in *.

(** ** TarExtract and the cleanup of the source (claim C5) *)

(** C5, as stated, fails: when tar exits with an error after the reader was
    obtained, [TarExtract] returns without calling [Cleanup]. *)
Lemma tar_failure_skips_cleanup :
  let env := with_wait (quiet_env "" "" bare_tree)
                       (Some (ErrExternal "exit status 2")) [] in
  let r := TarExtract env example_source mount_point [] empty_world in
  Reader example_source = None /\
  fst r = Return (Some (ErrTarExtract None (ErrExternal "exit status 2"))) /\
  ~ In (FnTarExtract, OpCleanup) (trace (snd r)).
Proof.
  split; [reflexivity|]. split; [reflexivity|].
  vm_compute. intuition discriminate.
Qed.

(** C5 (amended): once the reader is obtained, [Cleanup] is called exactly
    when tar started and exited without error, after the wait; a cleanup
    error is dropped when it says the resource is not found and returned
    otherwise. When tar fails to start or to finish, its error is returned
    and [Cleanup] is not called. The reader is closed in every case. *)
Theorem tar_extract_cleanup env src dir args w :
  Reader src = None ->
  let a := ["-x"; "-C"; path_string dir] ++ args in
  let r := TarExtract env src dir args w in
  match start_answer env "tar" a, wait_answer env "tar" with
  | None, None =>
    trace (snd r)
    = trace w ++ [(FnTarExtract, OpReader); (FnTarExtract, OpStart "tar" a);
                  (FnTarExtract, OpWait "tar"); (FnTarExtract, OpCleanup);
                  (FnTarExtract, OpReaderClose)]
    /\ fst r = Return (cleanup_result src)
  | None, Some e =>
    trace (snd r)
    = trace w ++ [(FnTarExtract, OpReader); (FnTarExtract, OpStart "tar" a);
                  (FnTarExtract, OpWait "tar"); (FnTarExtract, OpReaderClose)]
    /\ exists stderr, fst r = Return (Some (ErrTarExtract stderr e))
  | Some e, _ =>
    trace (snd r)
    = trace w ++ [(FnTarExtract, OpReader); (FnTarExtract, OpStart "tar" a);
                  (FnTarExtract, OpReaderClose)]
    /\ fst r = Return (Some e)
  end.
Proof.
  intros Hr a r. subst r a. unfold TarExtract, cleanup_result. rewrite Hr.
  destruct (start_answer env "tar" _) as [e|] eqn:Hs;
    [|destruct (wait_answer env "tar") as [e|] eqn:Hw;
      [destruct (0 <? length (tar_stderr env))%nat
      |destruct (Cleanup src) as [e|]; [destruct (IsNotFound e)|]]];
    run; cbn; rewrite <- ?app_assoc; eauto.
Qed.

Lemma tar_extract_cleanup_witness :
  let src := mkSource None (Some (ErrWrapf ErrNotFound "container" "c1")) in
  let r := TarExtract (quiet_env "" "" bare_tree) src mount_point []
                      empty_world in
  trace (snd r)
  = [(FnTarExtract, OpReader);
     (FnTarExtract, OpStart "tar" ["-x"; "-C"; "/tmp/ignite"]);
     (FnTarExtract, OpWait "tar"); (FnTarExtract, OpCleanup);
     (FnTarExtract, OpReaderClose)]
  /\ fst r = Return None.
Proof.
  exact (tar_extract_cleanup (quiet_env "" "" bare_tree)
           (mkSource None (Some (ErrWrapf ErrNotFound "container" "c1")))
           mount_point [] empty_world eq_refl).
Defined.

(** ** setupResolvConf (claim C6) *)

Lemma Stat_app env t (d : path) c q :
  Stat env t (d ++ c :: q)
  = match t !! (d ++ c :: q) with
    | None => inr (ErrPath "stat" (d ++ c :: q) ENOENT)
    | Some (File n) => inl (mkFileInfo false n)
    | Some Dir => inl (mkFileInfo true 4096)
    | Some (Symlink target) => follow env (d ++ c :: q) target
    end.
Proof. by destruct d. Qed.

Lemma Stat_dir env t (d : path) :
  d = [] \/ t !! d = Some Dir -> Stat env t d = inl (mkFileInfo true 4096).
Proof.
  intros [->|H]; [done|]. destruct d; [done|]. unfold Stat. by rewrite H.
Qed.

Lemma filepath_Dir_snoc (d : path) c : filepath_Dir (d ++ [c]) = d.
Proof. unfold filepath_Dir. apply removelast_last. Qed.

Lemma resolvConf_dir d : filepath_Dir (resolvConf_path d) = d ++ ["etc"].
Proof.
  unfold resolvConf_path.
  change (d ++ ["etc"; "resolv.conf"]) with (d ++ ["etc"] ++ ["resolv.conf"]).
  rewrite app_assoc. apply filepath_Dir_snoc.
Qed.

Lemma Stat_resolvConf env t d :
  Stat env t (resolvConf_path d)
  = match t !! resolvConf_path d with
    | None => inr (ErrPath "stat" (resolvConf_path d) ENOENT)
    | Some (File n) => inl (mkFileInfo false n)
    | Some Dir => inl (mkFileInfo true 4096)
    | Some (Symlink target) => follow env (resolvConf_path d) target
    end.
Proof. apply Stat_app. Qed.

Lemma MkdirAll_rec_dir env fuel t p :
  Stat env t p = inl (mkFileInfo true 4096) ->
  MkdirAll_rec env fuel t p = (None, t).
Proof. intros H. destruct fuel; simpl; by rewrite H. Qed.

Lemma MkdirAll_rec_missing env t (d : path) c :
  d = [] \/ t !! d = Some Dir -> t !! (d ++ [c]) = None ->
  MkdirAll_rec env (length (d ++ [c])) t (d ++ [c])
  = (None, <[d ++ [c] := Dir]> t).
Proof.
  intros Hd Hc. rewrite length_app. cbn [length]. rewrite Nat.add_1_r.
  cbn [MkdirAll_rec]. rewrite Stat_app, Hc, filepath_Dir_snoc.
  rewrite (MkdirAll_rec_dir env _ t d (Stat_dir env t d Hd)).
  assert (Mkdir env t (d ++ [c]) = (None, <[d ++ [c] := Dir]> t)) as HM.
  { assert (forall q : path, q = d ++ [c] ->
              Mkdir env t q = (None, <[q := Dir]> t)) as HM; [|by apply HM].
    intros q Hq. unfold Mkdir.
    destruct q as [|x q]; [by destruct d|].
    rewrite Hq, Hc, filepath_Dir_snoc, (Stat_dir env t d Hd). done. }
  by destruct (1 <? length (d ++ [c]))%nat; rewrite HM.
Qed.

Lemma Symlink_tree_exists env t target (p : path) n :
  t !! p = Some n ->
  Symlink_tree env t target p = (Some (ErrPath "symlink" p EEXIST), t).
Proof. intros H. unfold Symlink_tree. rewrite H. by destruct p. Qed.

(** C6, at the failing input: when [etc/resolv.conf] exists and is empty,
    [os.Symlink] is called on the existing name and fails with [EEXIST]; no
    symbolic link is created and the error is returned. *)
Theorem setup_resolv_empty_file_fails env d w :
  tree w !! resolvConf_path d = Some (File 0) ->
  tree w !! (d ++ ["etc"]) = Some Dir ->
  let r := setupResolvConf env d w in
  fst r = Return (Some (ErrPath "symlink" (resolvConf_path d) EEXIST))
  /\ tree (snd r) = tree w
  /\ trace (snd r)
     = trace w ++ [(FnSetupResolvConf, OpStat (resolvConf_path d));
                   (FnSetupResolvConf, OpMkdirAll (d ++ ["etc"]));
                   (FnSetupResolvConf,
                    OpSymlink "../proc/net/pnp" (resolvConf_path d))].
Proof.
  intros Hrc Hetc r. subst r.
  unfold setupResolvConf. prims. run.
  rewrite Stat_resolvConf, Hrc. cbn.
  rewrite resolvConf_dir.
  rewrite (MkdirAll_rec_dir env _ (tree w) (d ++ ["etc"]))
    by (apply Stat_dir; by right).
  cbn. rewrite (Symlink_tree_exists env _ _ _ _ Hrc). cbn.
  by rewrite <- ?app_assoc.
Qed.

Lemma setup_resolv_empty_file_fails_witness :
  let r := setupResolvConf (quiet_env "" "" empty_resolv_tree) mount_point
             (mkWorld [] ∅ empty_resolv_tree) in
  fst r = Return (Some (ErrPath "symlink" (resolvConf_path mount_point) EEXIST))
  /\ tree (snd r) = empty_resolv_tree
  /\ trace (snd r)
     = [(FnSetupResolvConf, OpStat (resolvConf_path mount_point));
        (FnSetupResolvConf, OpMkdirAll (mount_point ++ ["etc"]));
        (FnSetupResolvConf,
         OpSymlink "../proc/net/pnp" (resolvConf_path mount_point))].
Proof.
  apply (setup_resolv_empty_file_fails (quiet_env "" "" empty_resolv_tree)
           mount_point (mkWorld [] ∅ empty_resolv_tree)).
  - vm_compute. reflexivity.
  - vm_compute. reflexivity.
Defined.

(** The first half of C6 holds: a file that is not empty is left as it
    is. *)
Lemma setup_resolv_untouched env d w n :
  tree w !! resolvConf_path d = Some (File n) -> n <> 0 ->
  setupResolvConf env d w
  = (Return None,
     mkWorld (trace w ++ [(FnSetupResolvConf, OpStat (resolvConf_path d))])
             (lengths w) (tree w)).
Proof.
  intros Hrc Hn. unfold setupResolvConf. prims. run.
  rewrite Stat_resolvConf, Hrc. cbn.
  by replace (n =? 0) with false by lia.
Qed.

Example resolv_conf_kept :
  tree (snd (setupResolvConf (quiet_env "" "" resolv_tree) mount_point
                             (mkWorld [] ∅ resolv_tree)))
  = resolv_tree.
Proof.
  by rewrite (setup_resolv_untouched _ mount_point _ 37).
Qed.

(** So does the fallback when there is no [resolv.conf]: [etc] is created
    if it is missing, and the link is made. *)
Lemma setup_resolv_missing env d w :
  tree w !! resolvConf_path d = None ->
  d = [] \/ tree w !! d = Some Dir ->
  tree w !! (d ++ ["etc"]) = None \/ tree w !! (d ++ ["etc"]) = Some Dir ->
  let r := setupResolvConf env d w in
  fst r = Return None
  /\ tree (snd r)
     = <[resolvConf_path d := Symlink "../proc/net/pnp"]>
         (<[d ++ ["etc"] := Dir]> (tree w)).
Proof.
  intros Hrc Hd Hetc r. subst r.
  unfold setupResolvConf. prims. run.
  rewrite Stat_resolvConf, Hrc. cbn.
  rewrite resolvConf_dir.
  assert (MkdirAll_rec env (length (d ++ ["etc"])) (tree w) (d ++ ["etc"])
          = (None, <[d ++ ["etc"] := Dir]> (tree w))) as ->.
  { destruct Hetc as [Hetc|Hetc].
    - by apply MkdirAll_rec_missing.
    - rewrite insert_id by done. apply MkdirAll_rec_dir, Stat_dir. by right. }
  cbn. unfold Symlink_tree.
  assert (resolvConf_path d <> d ++ ["etc"]) as Hne.
  { intros E. apply (f_equal length) in E. unfold resolvConf_path in E.
    rewrite !length_app in E. simpl in E. lia. }
  rewrite lookup_insert_ne, Hrc by done.
  rewrite resolvConf_dir, (Stat_dir env _ (d ++ ["etc"]))
    by (right; apply lookup_insert_eq).
  unfold resolvConf_path. by destruct d.
Qed.

(** ** The shrink stage, step by step *)

(** What [getMinSize] does, by the answers it gets. *)
Lemma getMinSize_run env p w :
  getMinSize env p w
  = let '(dev, aerr) := attach_answer env p false in
    match aerr with
    | Some e => (Return (0, Some e), add_events w [ev_attach p])
    | None =>
      let '(out, oerr) := exec_answer env "resize2fs" ["-P"; dev] in
      let pre := [ev_attach p; ev_e2fsck dev; ev_estimate dev] in
      match oerr with
      | Some e =>
        (Return (0, Some e), add_events w (pre ++ [ev_detach dev]))
      | None =>
        match parseResize2fsOutputForMinSize out with
        | Panic msg => (Panic msg, add_events w (pre ++ [ev_detach dev]))
        | Return (n, Some ne) =>
          (Return (n, Some (ErrNum ne)),
           add_events w (pre ++ [ev_detach dev]))
        | Return (n, None) =>
          (Return (n, match snd (exec_answer env "resize2fs"
                                              [dev; FormatInt n]) with
                      | Some e => Some e
                      | None => detach_answer env dev
                      end),
           add_events w (pre ++ [ev_resize dev n; ev_detach dev]))
        end
      end
    end.
Proof.
  unfold getMinSize, add_events, ev_attach, ev_e2fsck, ev_estimate, ev_resize,
    ev_detach. prims. run.
  destruct (attach_answer env p false) as [dev [e|]]; [done|].
  destruct (exec_answer env "resize2fs" ["-P"; dev]) as [out [e|]];
    [cbn; by rewrite <- ?app_assoc|].
  destruct (parseResize2fsOutputForMinSize out) as [[n [ne|]]|msg];
    [cbn; by rewrite <- ?app_assoc| |cbn; by rewrite <- ?app_assoc].
  destruct (exec_answer env "resize2fs" [dev; FormatInt n]) as [o [e|]];
    cbn; by rewrite <- ?app_assoc.
Qed.

(** What [resizeToMinimum] does after [getMinSize]. *)
Lemma resizeToMinimum_run env img w :
  resizeToMinimum env img w
  = let p := image_path img in
    match getMinSize env p w with
    | (Panic msg, w1) => (Panic msg, w1)
    | (Return (n, Some e), w1) => (Return (Some e), w1)
    | (Return (n, None), w1) =>
      match open_answer env p with
      | Some e => (Return (Some e), add_events w1 [ev_reopen p])
      | None =>
        let target := wrap64 (n * blockSize) in
        let evs := [ev_reopen p; ev_truncate p target; ev_close p] in
        if target <? 0 then
          (Return (Some (shrink_error img (ErrPath "truncate" p EINVAL))),
           add_events w1 evs)
        else
          match truncate_answer env p target with
          | Some e => (Return (Some (shrink_error img e)), add_events w1 evs)
          | None =>
            (Return (close_answer env p),
             mkWorld (trace w1 ++ evs) (<[p := target]> (lengths w1))
                     (tree w1))
          end
      end
    end.
Proof.
  unfold resizeToMinimum, add_events, ev_reopen, ev_truncate, ev_close,
    shrink_error.
  prims. run.
  destruct (getMinSize env (image_path img) w) as [[[n [e|]]|msg] w1];
    try done.
  destruct (open_answer env (image_path img)) as [e1|]; [done|].
  destruct (wrap64 (n * blockSize) <? 0); [cbn; by rewrite <- ?app_assoc|].
  destruct (truncate_answer env (image_path img) (wrap64 (n * blockSize)));
    cbn; by rewrite <- ?app_assoc.
Qed.

(** ** The truncation to the estimate (claim C3) *)

(** C3, as stated, fails: for an estimate of [2^52] blocks the 64-bit
    product [minBlocks x 4096] is 0, the shrink succeeds and the file is
    truncated to 0 bytes. *)
Lemma shrink_truncates_to_zero :
  let env := quiet_env "" "4503599627370496" bare_tree in
  let r := resizeToMinimum env example_image empty_world in
  fst r = Return None /\
  estimate env example_image = Return (4503599627370496, None) /\
  lengths (snd r) !! image_path example_image = Some 0 /\
  4503599627370496 * 4096 <> 0.
Proof.
  split; [vm_compute; reflexivity|]. split; [vm_compute; reflexivity|].
  split; [vm_compute; reflexivity|]. lia.
Qed.

(** C3 (amended): after a successful shrink the backing file, reopened by
    its own path once the loop device is detached, has been truncated to the
    64-bit product of the parsed block count and 4096; that is exactly
    [minBlocks x 4096] bytes when [minBlocks < 2^51]. *)
Theorem shrink_truncates_to_estimate env img w w' :
  resizeToMinimum env img w = (Return None, w') ->
  let p := image_path img in
  exists dev minBlocks,
    attach_answer env p false = (dev, None) /\
    estimate env img = Return (minBlocks, None) /\
    trace w'
    = trace w ++ [ev_attach p; ev_e2fsck dev; ev_estimate dev;
                  ev_resize dev minBlocks; ev_detach dev; ev_reopen p;
                  ev_truncate p (wrap64 (minBlocks * blockSize));
                  ev_close p] /\
    lengths w' !! p = Some (wrap64 (minBlocks * blockSize)) /\
    (minBlocks < 2 ^ 51 -> lengths w' !! p = Some (minBlocks * blockSize)).
Proof.
  intros H p. subst p.
  rewrite resizeToMinimum_run in H. cbv zeta in H.
  rewrite getMinSize_run in H. unfold estimate.
  destruct (attach_answer env (image_path img) false) as [dev [e|]];
    [done|]. cbn [fst].
  destruct (exec_answer env "resize2fs" ["-P"; dev]) as [out [e|]];
    [done|]. cbn [fst].
  destruct (parseResize2fsOutputForMinSize out) as [[n [ne|]]|msg] eqn:Hp;
    [done| |done].
  cbn zeta beta iota in H.
  destruct (snd (exec_answer env "resize2fs" [dev; FormatInt n])); [done|].
  destruct (detach_answer env dev); [done|].
  destruct (open_answer env (image_path img)); [done|].
  destruct (wrap64 (n * blockSize) <? 0); [done|].
  destruct (truncate_answer env (image_path img) (wrap64 (n * blockSize)));
    [done|].
  simplify_eq. exists dev, n. cbn [trace lengths add_events].
  rewrite <- app_assoc, lookup_insert_eq. repeat split; try done.
  intros Hlt. apply parse_ok_nonneg in Hp.
  change (2 ^ 51) with 2251799813685248 in Hlt.
  by rewrite wrap64_small by (consts; lia).
Qed.

Lemma shrink_truncates_to_estimate_witness :
  let env := quiet_env "" "minimum size: 100000" bare_tree in
  let p := image_path example_image in
  exists dev minBlocks,
    attach_answer env p false = (dev, None) /\
    estimate env example_image = Return (minBlocks, None) /\
    trace (snd (resizeToMinimum env example_image empty_world))
    = trace empty_world
      ++ [ev_attach p; ev_e2fsck dev; ev_estimate dev;
          ev_resize dev minBlocks; ev_detach dev; ev_reopen p;
          ev_truncate p (wrap64 (minBlocks * blockSize)); ev_close p] /\
    lengths (snd (resizeToMinimum env example_image empty_world)) !! p
    = Some (wrap64 (minBlocks * blockSize)) /\
    (minBlocks < 2 ^ 51 ->
     lengths (snd (resizeToMinimum env example_image empty_world)) !! p
     = Some (minBlocks * blockSize)).
Proof.
  apply (shrink_truncates_to_estimate
           (quiet_env "" "minimum size: 100000" bare_tree)
           example_image empty_world).
  vm_compute. reflexivity.
Defined.

(** The end-to-end scenario of the specification: 100000 blocks give a file
    of 409600000 bytes. *)
Example shrink_example :
  lengths (snd (resizeToMinimum (quiet_env "" "minimum size: 100000" bare_tree)
                                example_image empty_world))
  !! image_path example_image = Some 409600000.
Proof. vm_compute. reflexivity. Qed.

(** ** The repair step (claim C8) *)

(** C8: whatever the filesystem checker answers, the shrink does the same
    and returns the same; once the image is attached the checker is called
    and the estimate is asked next, and the resize when the estimate
    parses. *)
Theorem repair_result_ignored env ans img w :
  let p := image_path img in
  resizeToMinimum (with_e2fsck env ans) img w = resizeToMinimum env img w /\
  getMinSize (with_e2fsck env ans) p w = getMinSize env p w /\
  (forall dev,
     attach_answer env p false = (dev, None) ->
     exists rest,
       trace (snd (getMinSize (with_e2fsck env ans) p w))
       = trace w ++ [ev_attach p; ev_e2fsck dev; ev_estimate dev] ++ rest /\
       (forall out n,
          exec_answer env "resize2fs" ["-P"; dev] = (out, None) ->
          parseResize2fsOutputForMinSize out = Return (n, None) ->
          rest = [ev_resize dev n; ev_detach dev])).
Proof.
  intros p. subst p.
  assert (getMinSize (with_e2fsck env ans) (image_path img) w
          = getMinSize env (image_path img) w) as Hg.
  { rewrite !getMinSize_run. reflexivity. }
  split; [|split; [exact Hg|]].
  - rewrite !resizeToMinimum_run. cbv zeta. rewrite Hg. reflexivity.
  - intros dev Ha. rewrite Hg, getMinSize_run, Ha.
    destruct (exec_answer env "resize2fs" ["-P"; dev]) as [out [e|]];
      [eexists; split; [reflexivity|]; intros; by simplify_eq|].
    destruct (parseResize2fsOutputForMinSize out) as [[n [ne|]]|msg] eqn:Hp;
      (eexists; split; [reflexivity|]); intros out' n' Ho Hn;
      injection Ho as <-; congruence.
Qed.

Lemma repair_result_ignored_witness :
  let env := quiet_env "" "minimum size: 100000" bare_tree in
  let ans := ("", Some (ErrExternal "exit status 1")) in
  let p := image_path example_image in
  trace (snd (getMinSize (with_e2fsck env ans) p empty_world))
  = [ev_attach p; ev_e2fsck "/dev/loop0"; ev_estimate "/dev/loop0";
     ev_resize "/dev/loop0" 100000; ev_detach "/dev/loop0"]
  /\ resizeToMinimum (with_e2fsck env ans) example_image empty_world
     = resizeToMinimum env example_image empty_world.
Proof.
  intros env ans p. subst p.
  destruct (repair_result_ignored env ans example_image empty_world)
    as (Hr & _ & Ht).
  split; [|exact Hr].
  destruct (Ht "/dev/loop0" eq_refl) as (rest & Htr & Hrest).
  rewrite Htr, (Hrest "minimum size: 100000" 100000 eq_refl eq_refl).
  reflexivity.
Defined.

(** ** The failures of the shrink stage (claim C9) *)

(** C9, as stated, fails: the error of a failed loop attach is returned as
    it is, without the identity of the image. *)
Lemma attach_error_not_wrapped :
  let e := ErrExternal "no free loop device" in
  let env := with_attach (quiet_env "" "" bare_tree) ("", Some e) in
  let r := resizeToMinimum env example_image empty_world in
  fst r = Return (Some e) /\ identifies (GetUID example_image) e = false.
Proof. split; reflexivity. Qed.

(** C9 (amended): a failure of the loop attach, of the estimate, of its
    parsing to an error value, of the resize, of the reopening or of the
    truncation ends the shrink: no later step is called (the loop device,
    once attached, is detached; the reopened file is closed) and an error is
    returned. The errors of the attach, the estimate, the parse, the resize
    and the reopening are returned as they are; only the error of the
    truncation is wrapped with the identity of the image. *)
Theorem shrink_failures_abort env img w :
  let p := image_path img in
  let r := resizeToMinimum env img w in
  (forall dev e,
     attach_answer env p false = (dev, Some e) ->
     r = (Return (Some e), add_events w [ev_attach p])) /\
  (forall dev,
     attach_answer env p false = (dev, None) ->
     let pre := [ev_attach p; ev_e2fsck dev; ev_estimate dev] in
     (forall out e,
        exec_answer env "resize2fs" ["-P"; dev] = (out, Some e) ->
        r = (Return (Some e), add_events w (pre ++ [ev_detach dev]))) /\
     (forall out n ne,
        exec_answer env "resize2fs" ["-P"; dev] = (out, None) ->
        parseResize2fsOutputForMinSize out = Return (n, Some ne) ->
        r = (Return (Some (ErrNum ne)),
             add_events w (pre ++ [ev_detach dev]))) /\
     (forall out n,
        exec_answer env "resize2fs" ["-P"; dev] = (out, None) ->
        parseResize2fsOutputForMinSize out = Return (n, None) ->
        let pre' := pre ++ [ev_resize dev n; ev_detach dev] in
        let target := wrap64 (n * blockSize) in
        (forall e,
           snd (exec_answer env "resize2fs" [dev; FormatInt n]) = Some e ->
           r = (Return (Some e), add_events w pre')) /\
        (snd (exec_answer env "resize2fs" [dev; FormatInt n]) = None ->
         detach_answer env dev = None ->
         (forall e,
            open_answer env p = Some e ->
            r = (Return (Some e), add_events w (pre' ++ [ev_reopen p]))) /\
         (forall e,
            open_answer env p = None ->
            truncate_fails env p target e ->
            r = (Return (Some (shrink_error img e)),
                 add_events w (pre' ++ [ev_reopen p; ev_truncate p target;
                                        ev_close p]))
            /\ identifies (GetUID img) (shrink_error img e) = true)))).
Proof.
  intros p r. subst p r.
  rewrite resizeToMinimum_run. cbv zeta. rewrite getMinSize_run.
  split.
  { intros dev e ->. reflexivity. }
  intros dev ->. split; [|split].
  - intros out e ->. reflexivity.
  - intros out n ne -> ->. reflexivity.
  - intros out n -> ->. split.
    + intros e ->. reflexivity.
    + intros -> ->. split.
      * intros e ->. unfold add_events. cbn. by rewrite <- app_assoc.
      * intros e -> Hfail. split.
        -- unfold add_events. cbn.
           destruct Hfail as [[Hneg ->]|[Hpos Ht]].
           ++ replace (wrap64 (n * blockSize) <? 0) with true by lia.
              by rewrite <- app_assoc.
           ++ replace (wrap64 (n * blockSize) <? 0) with false by lia.
              rewrite Ht. by rewrite <- app_assoc.
        -- unfold identifies, shrink_error. apply String.eqb_refl.
Qed.

Lemma shrink_failures_abort_witness :
  let e := ErrExternal "no free loop device" in
  let env := with_attach (quiet_env "" "" bare_tree) ("", Some e) in
  resizeToMinimum env example_image empty_world
  = (Return (Some e),
     add_events empty_world [ev_attach (image_path example_image)]).
Proof.
  intros e env.
  exact (proj1 (shrink_failures_abort env example_image empty_world)
               "" e eq_refl).
Defined.

(** The truncation error carries the identity of the image. *)
Example truncate_error_wrapped :
  fst (resizeToMinimum (quiet_env "" "2251799813685248" bare_tree)
                       example_image empty_world)
  = Return (Some (shrink_error example_image
                    (ErrPath "truncate" (image_path example_image) EINVAL))).
Proof. reflexivity. Qed.

(** ** The events a computation adds *)

Section Emits.

Context {P : event -> Prop}.











End Emits.






Lemma baseImageSize_pos env img : 0 < baseImageSize env img.
Proof.
  unfold baseImageSize. rewrite getMinimumBaseSizeBytes_floor.
  pose proof (floor_bytes_range (Getenv env minimumBaseSizeGBEnv)) as H.
  change (2 ^ 30) with 1073741824 in H.
  case_match; lia.
Qed.

(** What [CreateImageFilesystem] does, by the answers it gets. *)
Lemma CreateImageFilesystem_run env img src w :
  CreateImageFilesystem env img src w
  = let p := image_path img in
    let n := baseImageSize env img in
    let uid := GetUID img in
    match create_answer env p with
    | Some e =>
      (Return (Some (ErrWrapf e "failed to create image file for %s" uid)),
       add_events w [ev_create p])
    | None =>
      match truncate_answer env p n with
      | Some e =>
        (Return (Some (ErrWrapf e "failed to allocate space for image %s"
                                uid)),
         mkWorld (trace w ++ [ev_create p; ev_allocate p n; ev_release p])
                 (<[p := 0]> (lengths w)) (tree w))
      | None =>
        match snd (exec_answer env "mkfs.ext4" (mkfs_args p)) with
        | Some e =>
          (Return (Some (ErrWrapf e "failed to format image %s" uid)),
           add_events (after_format env img w) [ev_release p])
        | None =>
          match addFiles env img src (after_format env img w) with
          | (Return (Some e), w2) =>
            (Return (Some e), add_events w2 [ev_release p])
          | (Return None, w2) =>
            let '(r3, w3) := resizeToMinimum env img w2 in
            (r3, add_events w3 [ev_release p])
          | (Panic msg, w2) => (Panic msg, add_events w2 [ev_release p])
          end
        end
      end
    end.
Proof.
  unfold CreateImageFilesystem, after_format, add_events, ev_create,
    ev_allocate, ev_mkfs, ev_release, mkfs_args.
  prims. run.
  pose proof (baseImageSize_pos env img) as Hpos.
  destruct (create_answer env (image_path img)) as [e|]; [done|].
  replace (baseImageSize env img <? 0) with false by lia.
  destruct (truncate_answer env (image_path img) (baseImageSize env img))
    as [e|]; [cbn; by rewrite <- ?app_assoc|].
  destruct (exec_answer env "mkfs.ext4" _) as [o [e|]];
    [cbn; by rewrite <- ?app_assoc|].
  cbn. rewrite <- !app_assoc. cbn [app].
  destruct (addFiles env img src _) as [[[e|]|msg] w2]; [done| |done].
  destruct (resizeToMinimum env img w2) as [[[e|]|msg] w3]; done.
Qed.

(** ** The order of the stages (claim C7) *)










(** The failure scenario of the specification: the formatter fails, the
    error carries what it printed, and neither populate nor shrink is
    attempted. *)
Example formatter_failure :
  let e := ErrExternal "mkfs.ext4: bad superblock" in
  let env := with_exec (quiet_env "" "" bare_tree) "mkfs.ext4" ("", Some e) in
  let p := image_path example_image in
  CreateImageFilesystem env example_image example_source empty_world
  = (Return (Some (ErrWrapf e "failed to format image %s"
                            (GetUID example_image))),
     mkWorld [ev_create p; ev_allocate p (10 * 2 ^ 30); ev_mkfs p;
              ev_release p]
             {[ p := 10 * 2 ^ 30 ]} ∅).
Proof. vm_compute. reflexivity. Qed.

(** An estimate that prints nothing: the panic of the parser unwinds
    through the pipeline, after the loop device is detached and the image
    file closed. *)
Example empty_estimate_panics :
  let env := quiet_env "" "" bare_tree in
  let r := CreateImageFilesystem env example_image example_source
             empty_world in
  fst r = Panic "index out of range" /\
  drop 17 (trace (snd r))
  = [ev_estimate "/dev/loop0"; ev_detach "/dev/loop0";
     ev_release (image_path example_image)].
Proof. split; vm_compute; reflexivity. Qed.

(** The end-to-end scenario of the specification: a nominal size of 2 GiB
    is planned at 10 GiB, the missing [resolv.conf] becomes a link, and an
    estimate of 100000 blocks leaves a file of 409600000 bytes. *)
Example end_to_end :
  let env := quiet_env "" "minimum size: 100000" bare_tree in
  let p := image_path example_image in
  let r := CreateImageFilesystem env example_image example_source
             empty_world in
  fst r = Return None /\
  baseImageSize env example_image = 10 * 2 ^ 30 /\
  tree (snd r) !! resolvConf_path mount_point
  = Some (Symlink "../proc/net/pnp") /\
  lengths (snd r) !! p = Some 409600000.
Proof. repeat split; vm_compute; reflexivity. Qed.

(** * Further properties of the code *)

(** ** addFiles: acquisition and release *)

(** [TarExtract] and [setupResolvConf] return, leave the lengths of the
    host files alone and make calls of their own only. *)
Lemma TarExtract_frame env src d args w :
  exists r evs,
    fst (TarExtract env src d args w) = Return r /\
    lengths (snd (TarExtract env src d args w)) = lengths w /\
    trace (snd (TarExtract env src d args w)) = trace w ++ evs /\
    Forall (fun e => fst e = FnTarExtract) evs.
Proof.
  unfold TarExtract.
  destruct (Reader src) as [e|];
    [|destruct (start_answer env "tar" _) as [e|];
      [|destruct (wait_answer env "tar") as [e|];
        [destruct (0 <? length (tar_stderr env))%nat
        |destruct (Cleanup src) as [e|]; [destruct (IsNotFound e)|]]]];
    run; cbn; rewrite <- ?app_assoc;
    (eexists _, _; split; [reflexivity|]; split; [reflexivity|];
     split; [reflexivity|]; by repeat constructor).
Qed.

Lemma setupResolvConf_frame env d w :
  exists r evs,
    fst (setupResolvConf env d w) = Return r /\
    lengths (snd (setupResolvConf env d w)) = lengths w /\
    trace (snd (setupResolvConf env d w)) = trace w ++ evs /\
    Forall (fun e => fst e = FnSetupResolvConf) evs.
Proof.
  unfold setupResolvConf. prims. run.
  destruct (Stat env (tree w) (resolvConf_path d)) as [fi|e];
    [destruct (Size fi =? 0) eqn:Hsz|destruct (IsNotExist e)]; cbn;
    try (eexists _, _; split; [reflexivity|]; split; [reflexivity|];
         split; [reflexivity|]; by repeat constructor).
  all: destruct (MkdirAll_rec env _ (tree w) _) as [[e1|] t1]; cbn;
    try (rewrite <- ?app_assoc; eexists _, _; split; [reflexivity|];
         split; [reflexivity|]; split; [reflexivity|];
         by repeat constructor).
  all: destruct (Symlink_tree env t1 _ _) as [err t2]; cbn;
    rewrite <- ?app_assoc; eexists _, _; split; [reflexivity|];
    split; [reflexivity|]; split; [reflexivity|]; by repeat constructor.
Qed.

Lemma populate_body_frame env src d w :
  exists r evs,
    fst (populate_body env src d w) = Return r /\
    lengths (snd (populate_body env src d w)) = lengths w /\
    trace (snd (populate_body env src d w)) = trace w ++ evs /\
    Forall extraction_call evs.
Proof.
  unfold populate_body. run.
  destruct (TarExtract_frame env src d [] w) as (r1 & evs1 & Hr & Hl & Ht & Hf).
  destruct (TarExtract env src d [] w) as [g w1]. cbn in *. subst g.
  assert (Forall extraction_call evs1) as Hf1.
  { eapply Forall_impl; [exact Hf|]. intros e He. by left. }
  destruct r1 as [e|]; cbn.
  - by exists (Some e), evs1.
  - destruct (setupResolvConf_frame env d w1) as (r2 & evs2 & Hr2 & Hl2 & Ht2 & Hf2).
    exists r2, (evs1 ++ evs2). rewrite Hr2, Hl2, Ht2, Hl, Ht, app_assoc.
    repeat split; try done. apply Forall_app. split; [done|].
    eapply Forall_impl; [exact Hf2|]. intros e He. by right.
Qed.

(** What [addFiles] does, by the answers it gets. *)
Lemma addFiles_run env img src w :
  addFiles env img src w
  = let p := image_path img in
    let '(d, terr) := tempdir_answer env in
    match terr with
    | Some e => (Return (Some e), add_events w [ev_tempdir])
    | None =>
      match snd (exec_answer env "mount" (mount_args p d)) with
      | Some e =>
        (Return (Some (mount_error p e)),
         add_events w [ev_tempdir; ev_mount p d; ev_removeall d])
      | None =>
        match populate_body env src d
                (add_events w [ev_tempdir; ev_mount p d]) with
        | (Return err, w1) =>
          (Return (match err with
                   | Some e => Some e
                   | None => snd (exec_answer env "umount" [path_string d])
                   end),
           add_events w1 [ev_umount d; ev_removeall d])
        | (Panic msg, w1) =>
          (Panic msg, add_events w1 [ev_umount d; ev_removeall d])
        end
      end
    end.
Proof.
  unfold addFiles, populate_body, add_events, ev_tempdir, ev_mount, ev_umount,
    ev_removeall, mount_error, mount_args.
  prims. run.
  destruct (tempdir_answer env) as [d [e|]]; [done|].
  destruct (exec_answer env "mount" _) as [o [e|]];
    [cbn; by rewrite <- ?app_assoc|].
  cbn. rewrite <- !app_assoc. cbn [app].
  destruct (TarExtract env src d [] _) as [[[e|]|msg] w1]; cbn.
  - destruct (exec_answer env "umount" _) as [o' e']. cbn.
    by rewrite <- ?app_assoc.
  - destruct (setupResolvConf env d w1) as [[[e|]|msg] w2]; cbn;
      destruct (exec_answer env "umount" _) as [o' e']; cbn;
      by rewrite <- ?app_assoc.
  - destruct (exec_answer env "umount" _) as [o' e']. cbn.
    by rewrite <- ?app_assoc.
Qed.

(** X1: once the temporary directory exists and the image is mounted on it,
    [addFiles] always returns (it never panics), and its last two calls are
    the unmount and then the removal of the directory, whatever the
    extraction and the set-up of [resolv.conf] did in between; it makes no
    other unmount or removal, and it leaves the lengths of the host files as
    they were. *)
Theorem addFiles_releases env img src w d :
  tempdir_answer env = (d, None) ->
  snd (exec_answer env "mount" (mount_args (image_path img) d)) = None ->
  exists r mid,
    fst (addFiles env img src w) = Return r /\
    trace (snd (addFiles env img src w))
    = trace w ++ [ev_tempdir; ev_mount (image_path img) d] ++ mid
      ++ [ev_umount d; ev_removeall d] /\
    Forall extraction_call mid /\
    lengths (snd (addFiles env img src w)) = lengths w.
Proof.
  intros Ht Hm. rewrite addFiles_run. cbv zeta. rewrite Ht, Hm.
  destruct (populate_body_frame env src d
              (add_events w [ev_tempdir; ev_mount (image_path img) d]))
    as (r & mid & Hr & Hl & Htr & Hf).
  destruct (populate_body env src d _) as [g w1]. cbn in *. subst g.
  eexists _, mid. split; [reflexivity|]. cbn. rewrite Htr, Hl.
  by rewrite <- !app_assoc.
Qed.

Lemma addFiles_releases_witness :
  exists r mid,
    fst (addFiles (quiet_env "" "" bare_tree) example_image example_source
                  empty_world) = Return r /\
    trace (snd (addFiles (quiet_env "" "" bare_tree) example_image
                         example_source empty_world))
    = trace empty_world
      ++ [ev_tempdir; ev_mount (image_path example_image) mount_point]
      ++ mid ++ [ev_umount mount_point; ev_removeall mount_point] /\
    Forall extraction_call mid /\
    lengths (snd (addFiles (quiet_env "" "" bare_tree) example_image
                           example_source empty_world))
    = lengths empty_world.
Proof.
  exact (addFiles_releases (quiet_env "" "" bare_tree) example_image
           example_source empty_world mount_point eq_refl eq_refl).
Defined.

(** X2: when the temporary directory cannot be made, [addFiles] returns that
    error and calls nothing else; when the mount fails, it returns the error
    with the path of the image, removes the directory, and neither extracts
    nor unmounts. *)
Theorem addFiles_acquire_failures env img src w :
  (forall d e,
     tempdir_answer env = (d, Some e) ->
     addFiles env img src w = (Return (Some e), add_events w [ev_tempdir])) /\
  (forall d e,
     tempdir_answer env = (d, None) ->
     snd (exec_answer env "mount" (mount_args (image_path img) d)) = Some e ->
     addFiles env img src w
     = (Return (Some (mount_error (image_path img) e)),
        add_events w [ev_tempdir; ev_mount (image_path img) d;
                      ev_removeall d])).
Proof.
  split.
  - intros d e Ht. rewrite addFiles_run. cbv zeta. by rewrite Ht.
  - intros d e Ht Hm. rewrite addFiles_run. cbv zeta. by rewrite Ht, Hm.
Qed.

Lemma addFiles_acquire_failures_witness :
  let e := ErrExternal "mount: wrong fs type" in
  let env := with_exec (quiet_env "" "" bare_tree) "mount" ("", Some e) in
  addFiles env example_image example_source empty_world
  = (Return (Some (mount_error (image_path example_image) e)),
     add_events empty_world
       [ev_tempdir; ev_mount (image_path example_image) mount_point;
        ev_removeall mount_point]).
Proof.
  intros e env.
  exact (proj2 (addFiles_acquire_failures env example_image example_source
                  empty_world) mount_point e eq_refl eq_refl).
Defined.



(** ** setupResolvConf: what it keeps and what it guarantees *)

Lemma Mkdir_mono env t p err t' :
  Mkdir env t p = (err, t') ->
  forall (q : path) n, t !! q = Some n -> t' !! q = Some n.
Proof.
  unfold Mkdir. intros H q n Hq.
  repeat case_match; simplify_eq; try done.
  rewrite lookup_insert_ne; [done|]. intros <-. congruence.
Qed.

Lemma MkdirAll_rec_mono env fuel :
  forall t p err t',
    MkdirAll_rec env fuel t p = (err, t') ->
    forall (q : path) n, t !! q = Some n -> t' !! q = Some n.
Proof.
  induction fuel as [|k IH]; intros t p err t' H q n Hq;
    cbn [MkdirAll_rec] in H.
  - repeat case_match; by simplify_eq.
  - destruct (Stat env t p) as [fi|e0].
    { destruct (IsDir fi); by simplify_eq. }
    assert (exists perr t1,
              (if (1 <? length p)%nat
               then MkdirAll_rec env k t (filepath_Dir p) else (None, t))
              = (perr, t1) /\ t1 !! q = Some n) as (perr & t1 & Hp & Hq1).
    { destruct (1 <? length p)%nat.
      - destruct (MkdirAll_rec env k t (filepath_Dir p)) as [perr t1] eqn:Hrec.
        exists perr, t1. split; [done|]. by eapply IH.
      - by exists None, t. }
    rewrite Hp in H. destruct perr as [e1|]; [by simplify_eq|].
    destruct (Mkdir env t1 p) as [merr t2] eqn:HM.
    pose proof (Mkdir_mono _ _ _ _ _ HM q n Hq1) as Hq2.
    repeat case_match; by simplify_eq.
Qed.

Lemma Symlink_tree_mono env t target p err t' :
  Symlink_tree env t target p = (err, t') ->
  forall (q : path) n, t !! q = Some n -> t' !! q = Some n.
Proof.
  unfold Symlink_tree. intros H q n Hq.
  repeat case_match; simplify_eq; try done.
  rewrite lookup_insert_ne; [done|]. intros <-. congruence.
Qed.

(** X4: [setupResolvConf] only adds to the tree: every file, directory or
    link that exists before it runs is there, unchanged, after it ran,
    whatever it returns. In particular an existing [resolv.conf] is never
    replaced or removed. *)
Theorem setupResolvConf_keeps_entries env d w (q : path) n :
  tree w !! q = Some n ->
  tree (snd (setupResolvConf env d w)) !! q = Some n.
Proof.
  intros Hq. unfold setupResolvConf. prims. run.
  destruct (Stat env (tree w) (resolvConf_path d)) as [fi|e];
    [destruct (Size fi =? 0)|destruct (IsNotExist e)]; cbn; try done.
  all: destruct (MkdirAll_rec env _ (tree w) _) as [[e1|] t1] eqn:HM; cbn;
    pose proof (MkdirAll_rec_mono _ _ _ _ _ _ HM q n Hq) as Hq1; try done.
  all: destruct (Symlink_tree env t1 _ _) as [err t2] eqn:HS; cbn;
    exact (Symlink_tree_mono _ _ _ _ _ _ HS q n Hq1).
Qed.

Lemma setupResolvConf_keeps_entries_witness :
  tree (snd (setupResolvConf (quiet_env "" "" empty_resolv_tree) mount_point
                             (mkWorld [] ∅ empty_resolv_tree)))
  !! resolvConf_path mount_point = Some (File 0).
Proof.
  apply (setupResolvConf_keeps_entries (quiet_env "" "" empty_resolv_tree)
           mount_point (mkWorld [] ∅ empty_resolv_tree)).
  vm_compute. reflexivity.
Defined.

(** X5: when [setupResolvConf] returns without error, there is an entry at
    [etc/resolv.conf], and it is not an empty regular file: what the
    function is documented to make sure of. *)
Theorem setupResolvConf_success_has_resolv env d w :
  fst (setupResolvConf env d w) = Return None ->
  exists nd,
    tree (snd (setupResolvConf env d w)) !! resolvConf_path d = Some nd /\
    nd <> File 0.
Proof.
  unfold setupResolvConf. prims. run. rewrite Stat_resolvConf.
  destruct (tree w !! resolvConf_path d) as [[sz| |target]|] eqn:Hrc; cbn.
  - destruct (sz =? 0) eqn:Hsz; cbn.
    + destruct (MkdirAll_rec env _ (tree w) _) as [[e1|] t1] eqn:HM; cbn;
        [done|].
      pose proof (MkdirAll_rec_mono _ _ _ _ _ _ HM _ _ Hrc) as Hrc1.
      rewrite (Symlink_tree_exists env _ _ _ _ Hrc1). by cbn.
    + intros _. exists (File sz). split; [done|]. intros [= ->]. done.
  - intros _. by exists Dir.
  - destruct (follow env (resolvConf_path d) target) as [fi|e];
      [destruct (Size fi =? 0)|destruct (IsNotExist e)]; cbn;
      try done; try (intros _; by exists (Symlink target)).
    all: destruct (MkdirAll_rec env _ (tree w) _) as [[e1|] t1] eqn:HM; cbn;
      [done|];
      pose proof (MkdirAll_rec_mono _ _ _ _ _ _ HM _ _ Hrc) as Hrc1;
      rewrite (Symlink_tree_exists env _ _ _ _ Hrc1); by cbn.
  - destruct (MkdirAll_rec env _ (tree w) _) as [[e1|] t1] eqn:HM; cbn;
      [done|].
    unfold Symlink_tree.
    destruct (resolvConf_path d) as [|c rc] eqn:Hp; [by cbn|].
    destruct (t1 !! (c :: rc)); [by cbn|].
    destruct (Stat env t1 (filepath_Dir (c :: rc))) as [fi|e]; [|by cbn].
    destruct (IsDir fi); cbn; [|done].
    intros _. exists (Symlink "../proc/net/pnp").
    by rewrite lookup_insert_eq.
Qed.

Lemma setupResolvConf_success_has_resolv_witness :
  exists nd,
    tree (snd (setupResolvConf (quiet_env "" "" bare_tree) mount_point
                               (mkWorld [] ∅ bare_tree)))
    !! resolvConf_path mount_point = Some nd /\ nd <> File 0.
Proof.
  apply (setupResolvConf_success_has_resolv (quiet_env "" "" bare_tree)
           mount_point (mkWorld [] ∅ bare_tree)).
  vm_compute. reflexivity.
Defined.

(** X6: a [resolv.conf] that is a regular file of non-zero length, or a
    directory, is left alone: [setupResolvConf] makes the one file-stat,
    returns no error and changes nothing. *)
Theorem resolv_nonempty_untouched env d w nd :
  tree w !! resolvConf_path d = Some nd ->
  (nd = Dir \/ exists n, nd = File n /\ n <> 0) ->
  setupResolvConf env d w
  = (Return None,
     add_events w [(FnSetupResolvConf, OpStat (resolvConf_path d))]).
Proof.
  intros Hrc Hnd. unfold setupResolvConf, add_events. prims. run.
  rewrite Stat_resolvConf, Hrc.
  destruct Hnd as [->|(n & -> & Hn)]; cbn; [done|].
  by replace (n =? 0) with false by lia.
Qed.

Lemma resolv_nonempty_untouched_witness :
  setupResolvConf (quiet_env "" "" resolv_tree) mount_point
                  (mkWorld [] ∅ resolv_tree)
  = (Return None,
     add_events (mkWorld [] ∅ resolv_tree)
       [(FnSetupResolvConf, OpStat (resolvConf_path mount_point))]).
Proof.
  apply (resolv_nonempty_untouched (quiet_env "" "" resolv_tree) mount_point
           (mkWorld [] ∅ resolv_tree) (File 37)).
  - vm_compute. reflexivity.
  - right. exists 37. split; [reflexivity|lia].
Defined.

(** X7: when nothing exists at [etc/resolv.conf] and the mount point is a
    directory, [setupResolvConf] returns no error; afterwards [etc] is a
    directory (created when it was missing) and [etc/resolv.conf] is a
    symbolic link to [../proc/net/pnp]; every other path is as before. *)
Theorem resolv_missing_linked env d w :
  tree w !! resolvConf_path d = None ->
  d = [] \/ tree w !! d = Some Dir ->
  tree w !! (d ++ ["etc"]) = None \/ tree w !! (d ++ ["etc"]) = Some Dir ->
  let r := setupResolvConf env d w in
  fst r = Return None /\
  tree (snd r) !! resolvConf_path d = Some (Symlink "../proc/net/pnp") /\
  tree (snd r) !! (d ++ ["etc"]) = Some Dir /\
  (forall q : path,
     q <> resolvConf_path d -> q <> d ++ ["etc"] ->
     tree (snd r) !! q = tree w !! q).
Proof.
  intros Hrc Hd Hetc r.
  destruct (setup_resolv_missing env d w Hrc Hd Hetc) as [Hr Ht].
  subst r. rewrite Ht. split; [done|].
  assert (resolvConf_path d <> d ++ ["etc"]) as Hne.
  { intros E. apply (f_equal length) in E. unfold resolvConf_path in E.
    rewrite !length_app in E. simpl in E. lia. }
  split; [by rewrite lookup_insert_eq|].
  split; [by rewrite lookup_insert_ne, lookup_insert_eq|].
  intros q Hq1 Hq2. by rewrite !lookup_insert_ne.
Qed.

Lemma resolv_missing_linked_witness :
  let r := setupResolvConf (quiet_env "" "" bare_tree) mount_point
                           (mkWorld [] ∅ bare_tree) in
  fst r = Return None /\
  tree (snd r) !! resolvConf_path mount_point
  = Some (Symlink "../proc/net/pnp") /\
  tree (snd r) !! (mount_point ++ ["etc"]) = Some Dir /\
  (forall q : path,
     q <> resolvConf_path mount_point -> q <> mount_point ++ ["etc"] ->
     tree (snd r) !! q = bare_tree !! q).
Proof.
  apply (resolv_missing_linked (quiet_env "" "" bare_tree) mount_point
           (mkWorld [] ∅ bare_tree)).
  - vm_compute. reflexivity.
  - right. vm_compute. reflexivity.
  - left. vm_compute. reflexivity.
Defined.

(** ** The populate stage with an empty resolv.conf *)

Lemma TarExtract_success env src d args w :
  Reader src = None ->
  start_answer env "tar" (["-x"; "-C"; path_string d] ++ args) = None ->
  wait_answer env "tar" = None ->
  TarExtract env src d args w
  = (Return (cleanup_result src),
     mkWorld (trace w ++ tar_events d args) (lengths w) (extracted env d)).
Proof.
  intros Hr Hs Hw. unfold TarExtract, cleanup_result, tar_events.
  rewrite Hr, Hs, Hw.
  destruct (Cleanup src) as [e|]; [destruct (IsNotFound e)|];
    run; cbn; by rewrite <- ?app_assoc.
Qed.

Lemma setupResolvConf_empty_file env d w :
  tree w !! resolvConf_path d = Some (File 0) ->
  tree w !! (d ++ ["etc"]) = Some Dir ->
  setupResolvConf env d w
  = (Return (Some (ErrPath "symlink" (resolvConf_path d) EEXIST)),
     add_events w (resolv_events d)).
Proof.
  intros Hrc Hetc. unfold setupResolvConf, add_events, resolv_events.
  prims. run. rewrite Stat_resolvConf, Hrc. cbn. rewrite resolvConf_dir.
  rewrite (MkdirAll_rec_dir env _ (tree w) (d ++ ["etc"]))
    by (apply Stat_dir; by right).
  cbn. rewrite (Symlink_tree_exists env _ _ _ _ Hrc). cbn.
  by rewrite <- ?app_assoc.
Qed.

(** X8: an archive that brings an empty [etc/resolv.conf] cannot be
    imported: after a successful extraction and cleanup, [addFiles] still
    unmounts and removes the directory, and returns the [EEXIST] error of
    the symbolic link, whatever the unmount answers. *)
Theorem addFiles_empty_resolv_fails env img src w d :
  tempdir_answer env = (d, None) ->
  snd (exec_answer env "mount" (mount_args (image_path img) d)) = None ->
  Reader src = None ->
  start_answer env "tar" ["-x"; "-C"; path_string d] = None ->
  wait_answer env "tar" = None ->
  cleanup_result src = None ->
  extracted env d !! resolvConf_path d = Some (File 0) ->
  extracted env d !! (d ++ ["etc"]) = Some Dir ->
  fst (addFiles env img src w)
  = Return (Some (ErrPath "symlink" (resolvConf_path d) EEXIST)) /\
  trace (snd (addFiles env img src w))
  = trace w ++ [ev_tempdir; ev_mount (image_path img) d] ++ tar_events d []
    ++ resolv_events d ++ [ev_umount d; ev_removeall d].
Proof.
  intros Ht Hm Hr Hs Hw Hc Hrc Hetc.
  rewrite addFiles_run. cbv zeta. rewrite Ht, Hm.
  unfold populate_body. run.
  rewrite (TarExtract_success env src d [] _ Hr Hs Hw), Hc. cbn.
  rewrite setupResolvConf_empty_file by done. cbn.
  by rewrite <- !app_assoc.
Qed.

Lemma addFiles_empty_resolv_fails_witness :
  let env := quiet_env "" "" empty_resolv_tree in
  fst (addFiles env example_image example_source empty_world)
  = Return (Some (ErrPath "symlink" (resolvConf_path mount_point) EEXIST)) /\
  trace (snd (addFiles env example_image example_source empty_world))
  = trace empty_world
    ++ [ev_tempdir; ev_mount (image_path example_image) mount_point]
    ++ tar_events mount_point [] ++ resolv_events mount_point
    ++ [ev_umount mount_point; ev_removeall mount_point].
Proof.
  intros env.
  apply (addFiles_empty_resolv_fails env example_image example_source
           empty_world mount_point);
    try reflexivity; vm_compute; reflexivity.
Defined.

(** ** The shrink stage: release and the backing file *)

(** X9: once the loop device is attached, [getMinSize] detaches it exactly
    once, as its last call, on every path: when the estimate or the resize
    fails, when the output does not parse, and when the parser panics. In
    between it only runs external commands; it changes neither the lengths
    of the host files nor the tree. *)
Theorem getMinSize_detaches env p w dev :
  attach_answer env p false = (dev, None) ->
  exists mid,
    trace (snd (getMinSize env p w))
    = trace w ++ [ev_attach p] ++ mid ++ [ev_detach dev] /\
    Forall is_exec mid /\
    lengths (snd (getMinSize env p w)) = lengths w /\
    tree (snd (getMinSize env p w)) = tree w.
Proof.
  intros Ha. rewrite getMinSize_run, Ha.
  assert (forall cmd args, is_exec (FnGetMinSize, OpExec cmd args)) as Hx
    by (intros cmd args; by exists cmd, args).
  destruct (exec_answer env "resize2fs" ["-P"; dev]) as [out [e|]];
    [|destruct (parseResize2fsOutputForMinSize out) as [[n [ne|]]|msg]];
    cbn.
  1,2,4: exists [ev_e2fsck dev; ev_estimate dev];
    (split; [reflexivity|]); (split; [|done]);
    repeat constructor; apply Hx.
  exists [ev_e2fsck dev; ev_estimate dev; ev_resize dev n].
  split; [reflexivity|]. split; [|done]. repeat constructor; apply Hx.
Qed.

Lemma getMinSize_detaches_witness :
  exists mid,
    trace (snd (getMinSize (quiet_env "" "" bare_tree)
                           (image_path example_image) empty_world))
    = trace empty_world ++ [ev_attach (image_path example_image)] ++ mid
      ++ [ev_detach "/dev/loop0"] /\
    Forall is_exec mid /\
    lengths (snd (getMinSize (quiet_env "" "" bare_tree)
                             (image_path example_image) empty_world))
    = lengths empty_world /\
    tree (snd (getMinSize (quiet_env "" "" bare_tree)
                          (image_path example_image) empty_world))
    = tree empty_world.
Proof.
  exact (getMinSize_detaches (quiet_env "" "" bare_tree)
           (image_path example_image) empty_world "/dev/loop0" eq_refl).
Defined.



Lemma resizeToMinimum_world env img w :
  let p := image_path img in
  let r := resizeToMinimum env img w in
  tree (snd r) = tree w /\
  (lengths (snd r) = lengths w \/
   exists n,
     estimate env img = Return (n, None) /\
     0 <= wrap64 (n * blockSize) /\
     lengths (snd r) = <[p := wrap64 (n * blockSize)]> (lengths w) /\
     fst r = Return (close_answer env p)).
Proof.
  intros p r. subst p r.
  rewrite resizeToMinimum_run. cbv zeta. rewrite getMinSize_run.
  unfold estimate.
  destruct (attach_answer env (image_path img) false) as [dev [e|]];
    [split; [done|by left]|]. cbn [fst].
  destruct (exec_answer env "resize2fs" ["-P"; dev]) as [out [e|]];
    [split; [done|by left]|]. cbn [fst].
  destruct (parseResize2fsOutputForMinSize out) as [[n [ne|]]|msg];
    [split; [done|by left]| |split; [done|by left]].
  cbv zeta beta iota.
  destruct (snd (exec_answer env "resize2fs" [dev; FormatInt n]));
    [split; [done|by left]|].
  destruct (detach_answer env dev); [split; [done|by left]|].
  destruct (open_answer env (image_path img)); [split; [done|by left]|].
  destruct (Z.ltb_spec (wrap64 (n * blockSize)) 0);
    [split; [done|by left]|].
  destruct (truncate_answer env (image_path img) (wrap64 (n * blockSize)));
    [split; [done|by left]|].
  split; [done|]. right. by exists n.
Qed.


(** ** The tokens of the parser *)

Lemma first_ascii b : b < 128 -> utf8.first b = 0xF0.
Proof. intros H. unfold utf8.first. by replace (b <? 128) with true by lia. Qed.

Lemma acceptRanges_lo i lo hi : utf8.acceptRanges i = (lo, hi) -> 128 <= lo.
Proof. unfold utf8.acceptRanges. intros H. repeat case_match; simplify_eq; lia. Qed.

(** A byte below 128 stands for itself in every decoding it is part of. *)
Lemma DecodeRune_ascii_self s r w :
  utf8.DecodeRune s = (r, w) ->
  Forall (fun b => b < 128 -> r = b) (take w s).
Proof.
  destruct s as [|s0 t]; [intros [= <- <-]; constructor|].
  unfold utf8.DecodeRune.
  destruct (0xF0 <=? utf8.first s0) eqn:Hx.
  { intros [= <- <-]. cbn. repeat constructor. intros Hb.
    by rewrite (first_ascii _ Hb). }
  assert (128 <= s0) as Hs0.
  { destruct (Z.lt_ge_cases s0 128) as [Hb|Hb]; [|done].
    rewrite (first_ascii _ Hb) in Hx. done. }
  destruct (utf8.acceptRanges _) as [lo hi] eqn:Hacc.
  apply acceptRanges_lo in Hacc. unfold utf8.locb, utf8.hicb.
  intros H. repeat case_match; simplify_eq; cbn;
    repeat constructor; intros; lia.
Qed.

Lemma emit_ascii_clean cur :
  ascii_clean cur -> Forall ascii_clean (emit cur).
Proof.
  intros H. destruct cur; [constructor|].
  cbn. constructor; [exact H|constructor].
Qed.

Lemma split_runs_ascii_clean rs :
  forall t cur,
    rs = utf8.runes t -> ascii_clean cur ->
    Forall ascii_clean (split_runs is_separator (chars_of rs t) cur).
Proof.
  induction rs as [|[r w] rs' IH]; intros t cur Hrs Hcur.
  - by apply emit_ascii_clean.
  - assert (t <> []) as Hne by (intros ->; done).
    destruct (utf8.DecodeRune t) as [r0 w0] eqn:Hdec.
    rewrite (runes_cons _ _ _ Hne Hdec) in Hrs. simplify_eq.
    cbn [chars_of split_runs].
    destruct (is_separator r0) eqn:Hsep.
    + apply Forall_app. split.
      * by apply emit_ascii_clean.
      * apply IH; [done|constructor].
    + apply IH; [done|]. apply Forall_app. split; [done|].
      eapply Forall_impl; [exact (DecodeRune_ascii_self _ _ _ Hdec)|].
      intros b Hb Hlt. by rewrite <- (Hb Hlt).
Qed.

(** X12: no token handed to the integer parser is empty, and none contains
    an ASCII punctuation or white-space byte, whatever the text (valid
    UTF-8 or not): such a byte always decodes to itself and always ends the
    token. *)
Theorem tokens_have_no_ascii_separator out :
  Forall (fun tok =>
            tok <> [] /\
            Forall (fun b => b < 128 -> is_separator b = false) tok)
         (tokens out).
Proof.
  pose proof (tokens_ok out) as H1.
  assert (Forall ascii_clean (tokens out)) as H2.
  { unfold tokens, chars. apply split_runs_ascii_clean; [done|constructor]. }
  rewrite Forall_forall in H1, H2. apply Forall_forall. intros tok Htok.
  split; [by destruct (H1 tok Htok)|exact (H2 tok Htok)].
Qed.

(** X13: the parser succeeds whenever the last token is an optional sign
    and decimal digits with a value in the range of [int64], and returns
    that value: with C2 this is exactly when it succeeds. *)
Theorem parse_succeeds_on_integer out toks tok n :
  tokens out = toks ++ [tok] ->
  int_value tok = Some n ->
  minInt64 <= n <= maxInt64 ->
  parseResize2fsOutputForMinSize out = Return (n, None).
Proof.
  intros Ht Hv Hr. rewrite parse_last_token, Ht, last_snoc.
  pose proof (ParseInt_spec tok) as Hs. rewrite Hv in Hs.
  replace (in_int64 n) with true in Hs; [by rewrite Hs|].
  unfold in_int64. lia.
Qed.

Lemma parse_succeeds_on_integer_witness :
  parseResize2fsOutputForMinSize "blocks: +0042 " = Return (42, None).
Proof.
  apply (parse_succeeds_on_integer "blocks: +0042 " [bytes_of "blocks"]
           (bytes_of "+0042") 42).
  - vm_compute. reflexivity.
  - vm_compute. reflexivity.
  - vm_compute. split; discriminate.
Defined.

(** X14: a last token of decimal digits whose value is above [2^63-1] does
    not wrap around: the parser returns a range error (with the value
    [2^63-1]), so the shrink is abandoned. *)
Theorem parse_range_error out toks tok v :
  tokens out = toks ++ [tok] ->
  unsigned_value tok = Some v ->
  maxInt64 < v ->
  parseResize2fsOutputForMinSize out
  = Return (maxInt64, Some (strconv.rangeError "ParseInt" tok)).
Proof.
  intros Ht Hv Hr. rewrite parse_last_token, Ht, last_snoc. f_equal.
  destruct tok as [|c t]; [done|].
  assert ((48 <=? c) && (c <=? 57) = true) as Hc.
  { cbn in Hv. by destruct ((48 <=? c) && (c <=? 57)). }
  unfold strconv.ParseInt.
  replace (c =? 43) with false by lia. replace (c =? 45) with false by lia.
  pose proof (ParseUint_spec (c :: t)) as Hs. rewrite Hv in Hs.
  destruct (v <=? maxUint64) eqn:Hm; rewrite Hs; cbn [negb andb].
  - replace (2 ^ 63 <=? v) with true by (consts; lia). reflexivity.
  - reflexivity.
Qed.

Lemma parse_range_error_witness :
  parseResize2fsOutputForMinSize "size 9223372036854775808"
  = Return (maxInt64,
            Some (strconv.rangeError "ParseInt"
                    (bytes_of "9223372036854775808"))).
Proof.
  apply (parse_range_error "size 9223372036854775808" [bytes_of "size"]
           (bytes_of "9223372036854775808") 9223372036854775808).
  - vm_compute. reflexivity.
  - vm_compute. reflexivity.
  - vm_compute. reflexivity.
Defined.

(** ** The planned size, for every nominal size *)

Lemma wrap64_range z : minInt64 <= wrap64 z <= maxInt64.
Proof. unfold wrap64. consts. Z.div_mod_to_equations. lia. Qed.

(** X15: whatever the environment variable holds and whatever the nominal
    size of the image (also when five times the size leaves the range of
    [int64]), the floor is a whole number of GiB between 1 and 100 and the
    planned size lies between the floor and [2^63-1]: the image file is
    never allocated with a negative or zero length. *)
Theorem planned_size_bounds env img :
  (exists gb, 1 <= gb <= 100 /\ getMinimumBaseSizeBytes env = gb * 2 ^ 30) /\
  getMinimumBaseSizeBytes env <= baseImageSize env img <= maxInt64.
Proof.
  split.
  - rewrite getMinimumBaseSizeBytes_floor. unfold floor_bytes, override_GB.
    destruct (int_value _) as [n|]; [|exists 10; lia].
    destruct ((1 <=? n) && (n <=? 100)) eqn:Hn; [|exists 10; lia].
    exists n. lia.
  - unfold baseImageSize.
    pose proof (wrap64_range
                  (wrap64 (SizeBytes img) * wrap64 baseImageSizeMultiplier))
      as Hc.
    assert (getMinimumBaseSizeBytes env <= maxInt64) as Hf.
    { rewrite getMinimumBaseSizeBytes_floor.
      pose proof (floor_bytes_range (Getenv env minimumBaseSizeGBEnv)) as H.
      change (2 ^ 30) with 1073741824 in H. consts. lia. }
    case_match; lia.
Qed.

(** ** TarExtract without a reader *)

(** X16: when the source cannot give a reader, [TarExtract] returns that
    error at once: tar is not started, the source is not cleaned up and no
    reader is closed. *)
Theorem tar_extract_no_reader env src d args w e :
  Reader src = Some e ->
  TarExtract env src d args w
  = (Return (Some e), add_events w [(FnTarExtract, OpReader)]).
Proof. intros H. unfold TarExtract. rewrite H. by run. Qed.

Lemma tar_extract_no_reader_witness :
  TarExtract (quiet_env "" "" bare_tree)
             (mkSource (Some (ErrExternal "no such container")) None)
             mount_point [] empty_world
  = (Return (Some (ErrExternal "no such container")),
     add_events empty_world [(FnTarExtract, OpReader)]).
Proof.
  exact (tar_extract_no_reader (quiet_env "" "" bare_tree)
           (mkSource (Some (ErrExternal "no such container")) None)
           mount_point [] empty_world (ErrExternal "no such container")
           eq_refl).
Defined.

(** ** The image file across a run of the pipeline *)

Lemma last_app_snoc {A} (l l' : list A) x : last (l ++ l' ++ [x]) = Some x.
Proof. by rewrite app_assoc, last_snoc. Qed.

Lemma addFiles_frame env img src w :
  exists r,
    fst (addFiles env img src w) = Return r /\
    lengths (snd (addFiles env img src w)) = lengths w.
Proof.
  rewrite addFiles_run. cbv zeta.
  destruct (tempdir_answer env) as [d [e|]]; [by eexists|].
  destruct (snd (exec_answer env "mount" _)) as [e|]; [by eexists|].
  destruct (populate_body_frame env src d
              (add_events w [ev_tempdir; ev_mount (image_path img) d]))
    as (r & mid & Hr & Hl & _).
  destruct (populate_body env src d _) as [g w1]. cbn in *. subst g.
  by eexists.
Qed.

(** X17: when the image file cannot be created, the pipeline does nothing
    else. Once it is created, the pipeline closes it as its last call on
    every path, and never removes it: at the end its length is 0 (the
    allocation failed), the planned size (the formatter, the populate stage
    or the shrink failed before truncating), or the 64-bit product of the
    estimated block count and 4096. *)
Theorem image_file_after_run env img src w :
  let p := image_path img in
  let r := CreateImageFilesystem env img src w in
  (create_answer env p <> None -> snd r = add_events w [ev_create p]) /\
  (create_answer env p = None ->
   last (trace (snd r)) = Some (ev_release p) /\
   (lengths (snd r) !! p = Some 0 \/
    lengths (snd r) !! p = Some (baseImageSize env img) \/
    exists n,
      estimate env img = Return (n, None) /\
      lengths (snd r) !! p = Some (wrap64 (n * blockSize)))).
Proof.
  intros p r. subst r. rewrite CreateImageFilesystem_run. cbv zeta. fold p.
  destruct (create_answer env p) as [e|]; [split; [done|by intros ?]|].
  split; [by intros ?|]. intros _.
  destruct (truncate_answer env p (baseImageSize env img)) as [e|].
  { cbn. split; [|left; by rewrite lookup_insert_eq].
    exact (last_app_snoc (trace w)
             [ev_create p; ev_allocate p (baseImageSize env img)]
             (ev_release p)). }
  destruct (snd (exec_answer env "mkfs.ext4" (mkfs_args p))) as [e|].
  { cbn. split; [by rewrite last_snoc|]. right. left.
    by rewrite lookup_insert_eq. }
  destruct (addFiles_frame env img src (after_format env img w))
    as (ra & Hra & Hla).
  destruct (addFiles env img src (after_format env img w)) as [g w2].
  cbn in Hra, Hla. subst g.
  destruct ra as [e|].
  { cbn. split; [by rewrite last_snoc|]. right. left.
    rewrite Hla. by rewrite lookup_insert_eq. }
  destruct (resizeToMinimum_world env img w2) as [_ Hl].
  destruct (resizeToMinimum env img w2) as [r3 w3]. cbn in Hl.
  cbn. split; [by rewrite last_snoc|].
  destruct Hl as [Hl|(n & He & _ & Hl & _)]; rewrite Hl.
  - right. left. rewrite Hla. by rewrite lookup_insert_eq.
  - right. right. exists n. split; [done|]. by rewrite lookup_insert_eq.
Qed.

Lemma image_file_after_run_witness :
  let env := with_exec (quiet_env "" "" bare_tree) "mkfs.ext4"
               ("", Some (ErrExternal "mkfs.ext4: bad superblock")) in
  let p := image_path example_image in
  let r := CreateImageFilesystem env example_image example_source
             empty_world in
  last (trace (snd r)) = Some (ev_release p) /\
  (lengths (snd r) !! p = Some 0 \/
   lengths (snd r) !! p = Some (baseImageSize env example_image) \/
   exists n,
     estimate env example_image = Return (n, None) /\
     lengths (snd r) !! p = Some (wrap64 (n * blockSize))).
Proof.
  intros env p r.
  exact (proj2 (image_file_after_run env example_image example_source
                  empty_world) eq_refl).
Defined.

(** X18: the pipeline panics only in the shrink stage, and only when the
    estimate command succeeded and printed a text without any token: the
    format and populate stages succeeded, the loop device was attached, and
    the panic is the index out of range of the parser. *)
Theorem pipeline_panic_cause env img src w msg :
  fst (CreateImageFilesystem env img src w) = Panic msg ->
  msg = "index out of range" /\
  ~ format_fails env img /\
  fst (addFiles env img src (after_format env img w)) = Return None /\
  exists dev out,
    attach_answer env (image_path img) false = (dev, None) /\
    exec_answer env "resize2fs" ["-P"; dev] = (out, None) /\
    tokens out = [].
Proof.
  rewrite CreateImageFilesystem_run. cbv zeta. unfold format_fails.
  destruct (create_answer env (image_path img)) as [e|]; [done|].
  destruct (truncate_answer env (image_path img) (baseImageSize env img))
    as [e|]; [done|].
  destruct (snd (exec_answer env "mkfs.ext4" (mkfs_args (image_path img))))
    as [e|]; [done|].
  destruct (addFiles_frame env img src (after_format env img w))
    as (ra & Hra & _).
  destruct (addFiles env img src (after_format env img w)) as [g w2].
  cbn in Hra. subst g. destruct ra as [e|]; [done|].
  rewrite resizeToMinimum_run. cbv zeta. rewrite getMinSize_run.
  destruct (attach_answer env (image_path img) false) as [dev [e|]] eqn:Ha;
    [done|].
  destruct (exec_answer env "resize2fs" ["-P"; dev]) as [out [e|]] eqn:Ho;
    [done|].
  pose proof (parse_last_token out) as Hp.
  destruct (parseResize2fsOutputForMinSize out) as [[n [ne|]]|m] eqn:Hparse.
  - done.
  - cbv zeta beta iota.
    destruct (snd (exec_answer env "resize2fs" [dev; FormatInt n]));
      [done|].
    destruct (detach_answer env dev); [done|].
    destruct (open_answer env (image_path img)); [done|].
    destruct (wrap64 (n * blockSize) <? 0); [done|].
    by destruct (truncate_answer env (image_path img) _).
  - cbn. intros [= ->].
    destruct (last (tokens out)) as [tok|] eqn:Hlast; [done|].
    injection Hp as ->. split; [done|].
    split; [intros [H|[H|H]]; by destruct H|]. split; [done|].
    exists dev, out. split; [done|]. split; [done|]. by apply last_None.
Qed.

Lemma pipeline_panic_cause_witness :
  let env := quiet_env "" "" bare_tree in
  "index out of range" = "index out of range" /\
  ~ format_fails env example_image /\
  fst (addFiles env example_image example_source
                (after_format env example_image empty_world)) = Return None /\
  exists dev out,
    attach_answer env (image_path example_image) false = (dev, None) /\
    exec_answer env "resize2fs" ["-P"; dev] = (out, None) /\
    tokens out = [].
Proof.
  intros env.
  apply (pipeline_panic_cause env example_image example_source empty_world).
  vm_compute. reflexivity.
Defined.

(** X19: when the pipeline returns without error, every stage succeeded:
    the format stage did not fail, the populate stage returned no error, the
    estimate parsed to a block count that is not negative, the backing file
    has the length of the 64-bit product of that count and 4096, which is
    not negative, and the image file was closed last. *)
Theorem pipeline_success env img src w :
  let p := image_path img in
  let r := CreateImageFilesystem env img src w in
  fst r = Return None ->
  ~ format_fails env img /\
  fst (addFiles env img src (after_format env img w)) = Return None /\
  last (trace (snd r)) = Some (ev_release p) /\
  exists n,
    estimate env img = Return (n, None) /\
    0 <= n /\
    0 <= wrap64 (n * blockSize) /\
    lengths (snd r) !! p = Some (wrap64 (n * blockSize)).
Proof.
  intros p r. subst r. rewrite CreateImageFilesystem_run. cbv zeta. fold p.
  unfold format_fails, estimate. fold p.
  destruct (create_answer env p) as [e|]; [done|].
  destruct (truncate_answer env p (baseImageSize env img)) as [e|]; [done|].
  destruct (snd (exec_answer env "mkfs.ext4" (mkfs_args p))) as [e|];
    [done|].
  destruct (addFiles_frame env img src (after_format env img w))
    as (ra & Hra & Hla).
  destruct (addFiles env img src (after_format env img w)) as [g w2].
  cbn in Hra, Hla. subst g. destruct ra as [e|]; [done|].
  rewrite resizeToMinimum_run. cbv zeta. fold p. rewrite getMinSize_run.
  destruct (attach_answer env p false) as [dev [e|]]; [done|]. cbn [fst].
  destruct (exec_answer env "resize2fs" ["-P"; dev]) as [out [e|]];
    [done|]. cbn [fst].
  destruct (parseResize2fsOutputForMinSize out) as [[n [ne|]]|m] eqn:Hparse;
    [done| |done].
  cbv zeta beta iota.
  destruct (snd (exec_answer env "resize2fs" [dev; FormatInt n])); [done|].
  destruct (detach_answer env dev); [done|].
  destruct (open_answer env p); [done|].
  destruct (Z.ltb_spec (wrap64 (n * blockSize)) 0) as [Hneg|Hpos]; [done|].
  destruct (truncate_answer env p (wrap64 (n * blockSize))); [done|].
  cbn. intros Hclose.
  split; [intros [H|[H|H]]; by destruct H|]. split; [done|].
  split; [by rewrite last_snoc|].
  exists n. split; [done|]. split; [apply parse_ok_nonneg in Hparse; lia|].
  split; [done|]. by rewrite lookup_insert_eq.
Qed.

Lemma pipeline_success_witness :
  let env := quiet_env "" "minimum size: 100000" bare_tree in
  let p := image_path example_image in
  let r := CreateImageFilesystem env example_image example_source
             empty_world in
  ~ format_fails env example_image /\
  fst (addFiles env example_image example_source
                (after_format env example_image empty_world))
  = Return None /\
  last (trace (snd r)) = Some (ev_release p) /\
  exists n,
    estimate env example_image = Return (n, None) /\
    0 <= n /\
    0 <= wrap64 (n * blockSize) /\
    lengths (snd r) !! p = Some (wrap64 (n * blockSize)).
Proof.
  intros env p r.
  apply (pipeline_success env example_image example_source empty_world).
  vm_compute. reflexivity.
Defined.
